(** * A private blockchain (block.js, blockchain.js): model and properties

    The development follows the two classes of the repository, [Block] and
    [Blockchain].  JavaScript values are modelled as follows.

    - A string is a Rocq [string], one character per UTF-16 code unit; this
      covers the strings whose code units are below 256.
    - A number that holds an integer is a [Z]; the integers are exact, as
      they are in JavaScript below 2^53.
    - [null] in a field that otherwise holds a string is [None].
    - A block is a record and a chain a list of blocks; a method that
      changes its object returns the object as it leaves it.
    - A promise is modelled by the way it ends, see [Outcome]; where the
      order of queued callbacks decides what the code sees, the callbacks
      are kept in the order they were queued, see [Validation].
    - The clock is an argument of the operations that read it.
    - The libraries the code calls ([crypto-js], [hex2ascii], [JSON],
      [Buffer], [parseInt]) are modelled by executable functions;
      [bitcoinjs-message] is an oracle passed as an argument.
    - Calls of the operations do not overlap. *)

From Stdlib Require Import ZArith NArith List String Ascii Bool Lia.
From stdpp Require Import base list.
Import ListNotations.

Local Open Scope string_scope.
Local Open Scope Z_scope.
Local Open Scope list_scope.
Set Warnings "-register-all".

(* ------------------------------------------------------------------------- *)
(** ** Characters, bytes and hexadecimal text *)

(** The double quote, written by its code. *)
Definition dquote : ascii := ascii_of_nat 34.
Definition backslash : ascii := ascii_of_nat 92.

Definition code (c : ascii) : N := N_of_ascii c.

Definition chars (s : string) : list ascii := list_ascii_of_string s.
Definition text (l : list ascii) : string := string_of_list_ascii l.

(** One lowercase hexadecimal digit, [d < 16]. *)
Definition hex_digit (d : N) : ascii :=
  if (d <? 10)%N then ascii_of_N (48 + d) else ascii_of_N (87 + d).

(** The value of a hexadecimal digit of either case. *)
Definition hex_value (c : ascii) : option N :=
  let n := code c in
  if ((48 <=? n) && (n <=? 57))%N then Some (n - 48)%N
  else if ((97 <=? n) && (n <=? 102))%N then Some (n - 87)%N
  else if ((65 <=? n) && (n <=? 70))%N then Some (n - 55)%N
  else None.

(** [Buffer.from(s)]: the UTF-8 bytes of a string.  A code unit below 128 is
    one byte, one from 128 to 255 is two bytes. *)
Definition utf8_char (c : ascii) : list N :=
  let n := code c in
  if (n <? 128)%N then [n]
  else [(192 + n / 64)%N; (128 + n mod 64)%N].

Definition utf8 (s : string) : list N := flat_map utf8_char (chars s).

(** [buffer.toString('hex')]: two lowercase digits per byte. *)
Definition hex_byte (b : N) : list ascii :=
  [hex_digit (b / 16); hex_digit (b mod 16)].

Definition hex_of_bytes (bs : list N) : string := text (flat_map hex_byte bs).

(* ------------------------------------------------------------------------- *)
(** ** SHA-256 (FIPS 180-4), as [crypto-js/sha256] computes it *)

Module Sha256.

Definition mask32 : N := 4294967295.
Definition w32 (x : N) : N := N.land x mask32.
Definition add32 (x y : N) : N := w32 (x + y).
Definition rotr (n x : N) : N := N.lor (N.shiftr x n) (w32 (N.shiftl x (32 - n))).
Definition not32 (x : N) : N := N.lxor x mask32.

Definition Ch (x y z : N) : N := N.lxor (N.land x y) (N.land (not32 x) z).
Definition Maj (x y z : N) : N :=
  N.lxor (N.land x y) (N.lxor (N.land x z) (N.land y z)).
Definition Sigma0 (x : N) : N := N.lxor (rotr 2 x) (N.lxor (rotr 13 x) (rotr 22 x)).
Definition Sigma1 (x : N) : N := N.lxor (rotr 6 x) (N.lxor (rotr 11 x) (rotr 25 x)).
Definition sigma0 (x : N) : N := N.lxor (rotr 7 x) (N.lxor (rotr 18 x) (N.shiftr x 3)).
Definition sigma1 (x : N) : N := N.lxor (rotr 17 x) (N.lxor (rotr 19 x) (N.shiftr x 10)).

(** The constants are defined as the standard defines them: the first 32
    bits of the fractional parts of the cube roots (for [K]) and of the
    square roots (for [H0]) of the first primes. *)
Definition is_prime (n : nat) : bool :=
  forallb (fun d => negb (n mod d =? 0)%nat) (seq 2 (n - 2)).

Definition primes_below (bound : nat) : list N :=
  map N.of_nat (List.filter is_prime (seq 2 (bound - 2))).

(** The largest [r] below [2 ^ bits] with [r ^ k <= x], found bit by bit. *)
Fixpoint root_bits (k x : N) (bits : nat) (r : N) : N :=
  match bits with
  | O => r
  | S bits' =>
      let r' := (r + 2 ^ N.of_nat bits')%N in
      if (r' ^ k <=? x)%N then root_bits k x bits' r' else root_bits k x bits' r
  end.

(** The first 32 bits of the fractional part of the [k]-th root of [p]. *)
Definition fraction_of_root (k : N) (p : N) : N :=
  w32 (root_bits k (p * 2 ^ (32 * k))%N 40 0).

Definition K : list N := map (fraction_of_root 3) (primes_below 312).

Definition H0 : list N := map (fraction_of_root 2) (primes_below 20).

(** The message followed by the byte 128, zero bytes up to 56 modulo 64, and
    the bit length on eight bytes, most significant first. *)
Definition be_bytes (count : nat) (x : N) : list N :=
  rev (map (fun i => (N.shiftr x (8 * N.of_nat i) mod 256)%N) (seq 0 count)).

Definition pad (msg : list N) : list N :=
  let len := N.of_nat (length msg) in
  let zeros := N.to_nat ((119 - len mod 64) mod 64) in
  msg ++ [128%N] ++ repeat 0%N zeros ++ be_bytes 8 (8 * len).

Fixpoint words (bs : list N) : list N :=
  match bs with
  | a :: b :: c :: d :: rest =>
      (((a * 256 + b) * 256 + c) * 256 + d)%N :: words rest
  | _ => []
  end.

Fixpoint chunks (count : nat) (ws : list N) : list (list N) :=
  match count with
  | O => []
  | S count' => firstn 16 ws :: chunks count' (skipn 16 ws)
  end.

(** The message schedule, kept most recent word first. *)
Fixpoint extend (count : nat) (rev_w : list N) : list N :=
  match count with
  | O => rev_w
  | S count' =>
      let w := add32 (add32 (sigma1 (nth 1 rev_w 0%N)) (nth 6 rev_w 0%N))
                     (add32 (sigma0 (nth 14 rev_w 0%N)) (nth 15 rev_w 0%N)) in
      extend count' (w :: rev_w)
  end.

Definition schedule (chunk : list N) : list N := rev (extend 48 (rev chunk)).

Record regs : Type := Regs { ra : N; rb : N; rc : N; rd : N; re : N; rf : N; rg : N; rh : N }.

Definition round (r : regs) (kw : N * N) : regs :=
  let t1 := add32 (add32 (add32 (rh r) (Sigma1 (re r))) (Ch (re r) (rf r) (rg r)))
                  (add32 (fst kw) (snd kw)) in
  let t2 := add32 (Sigma0 (ra r)) (Maj (ra r) (rb r) (rc r)) in
  Regs (add32 t1 t2) (ra r) (rb r) (rc r) (add32 (rd r) t1) (re r) (rf r) (rg r).

Definition of_list (h : list N) : regs :=
  Regs (nth 0 h 0%N) (nth 1 h 0%N) (nth 2 h 0%N) (nth 3 h 0%N)
       (nth 4 h 0%N) (nth 5 h 0%N) (nth 6 h 0%N) (nth 7 h 0%N).

Definition to_list (r : regs) : list N :=
  [ra r; rb r; rc r; rd r; re r; rf r; rg r; rh r].

Definition compress (h : list N) (chunk : list N) : list N :=
  let r := fold_left round (combine K (schedule chunk)) (of_list h) in
  map (fun p => add32 (fst p) (snd p)) (combine h (to_list r)).

Definition digest (msg : list N) : list N :=
  let ws := words (pad msg) in
  let hs := fold_left compress (chunks (length ws / 16) ws) H0 in
  flat_map (be_bytes 4) hs.

End Sha256.

(** [SHA256(s).toString()]: the digest of the UTF-8 bytes of [s], in
    lowercase hexadecimal. *)
Definition SHA256 (s : string) : string := hex_of_bytes (Sha256.digest (utf8 s)).

(* ------------------------------------------------------------------------- *)
(** ** Numbers as text: [toString], [slice] and [parseInt] *)

Definition digit (d : N) : ascii := ascii_of_N (48 + d).

Fixpoint digits_fuel (fuel : nat) (n : N) : list ascii :=
  match fuel with
  | O => []
  | S fuel' =>
      if (n <? 10)%N then [digit n]
      else digits_fuel fuel' (n / 10)%N ++ [digit (n mod 10)%N]
  end.

(** The decimal digits of [n], most significant first. *)
Definition digits (n : N) : list ascii := digits_fuel (S (N.to_nat (N.size n))) n.

(** [n.toString()] for an integer [n]. *)
Definition Z_digits (n : Z) : list ascii :=
  if n <? 0 then "-"%char :: digits (Z.abs_N n) else digits (Z.abs_N n).

Definition toString (n : Z) : string := text (Z_digits n).

(** [s.slice(0, -3)]: all but the last three characters. *)
Definition slice_0_minus3 (s : string) : string :=
  text (firstn (length (chars s) - 3) (chars s)).

(** [new Date().getTime().toString().slice(0,-3)] for a clock that reads
    [now] milliseconds: the seconds, as text. *)
Definition seconds_text (now : N) : string := slice_0_minus3 (toString (Z.of_N now)).

(** White space as [parseInt] and the regular expression [\s] see it, among
    the code units below 256. *)
Definition is_js_space (c : ascii) : bool :=
  let n := code c in
  (((9 <=? n) && (n <=? 13)) || (n =? 32) || (n =? 160))%N.

Fixpoint skip_js_space (cs : list ascii) : list ascii :=
  match cs with
  | c :: rest => if is_js_space c then skip_js_space rest else cs
  | [] => []
  end.

Definition digit_value (radix : N) (c : ascii) : option N :=
  match hex_value c with
  | Some d => if (d <? radix)%N then Some d else None
  | None => None
  end.

(** The value of the longest prefix of digits; [acc] is [None] until a digit
    has been read. *)
Fixpoint read_digits (radix : N) (cs : list ascii) (acc : option N) : option N :=
  match cs with
  | c :: rest =>
      match digit_value radix c with
      | Some d => read_digits radix rest (Some (radix * default 0%N acc + d)%N)
      | None => acc
      end
  | [] => acc
  end.

Definition strip_0x (cs : list ascii) : option (list ascii) :=
  match cs with
  | c0 :: c1 :: rest =>
      if (Ascii.eqb c0 "0" && (Ascii.eqb c1 "x" || Ascii.eqb c1 "X"))%bool
      then Some rest else None
  | _ => None
  end.

(** [parseInt(s, radix)]; [radix] is [None] when the call gives none.  The
    result is [None] for NaN.  Numbers are exact integers here, as they are
    in JavaScript below 2^53. *)
Definition parseInt_chars (cs : list ascii) (radix : option N) : option Z :=
  let cs := skip_js_space cs in
  let signed :=
    match cs with
    | c :: rest =>
        if Ascii.eqb c "-" then (true, rest)
        else if Ascii.eqb c "+" then (false, rest)
        else (false, cs)
    | [] => (false, cs)
    end in
  let based :=
    match radix, strip_0x (snd signed) with
    | None, Some rest => (16%N, rest)
    | None, None => (10%N, snd signed)
    | Some r, Some rest => if (r =? 16)%N then (r, rest) else (r, snd signed)
    | Some r, None => (r, snd signed)
    end in
  match read_digits (fst based) (snd based) None with
  | Some n => Some (if fst signed then - Z.of_N n else Z.of_N n)
  | None => None
  end.

Definition parseInt (s : string) (radix : option N) : option Z :=
  parseInt_chars (chars s) radix.

(** [s.split(':')] *)
Fixpoint split_colon (cs : list ascii) : list (list ascii) :=
  match cs with
  | [] => [[]]
  | c :: rest =>
      if Ascii.eqb c ":" then [] :: split_colon rest
      else match split_colon rest with
           | piece :: pieces => (c :: piece) :: pieces
           | [] => [[c]]
           end
  end.

(** [parseInt(message.split(':')[1])]; a message with no second piece gives
    [parseInt(undefined)], which is NaN. *)
Definition message_time (message : string) : option Z :=
  match split_colon (chars message) with
  | _ :: piece :: _ => parseInt_chars piece None
  | _ => None
  end.

(** A text without a colon, as a wallet address is: it stays one piece of
    [split(':')]. *)
Definition no_colon (s : string) : bool :=
  forallb (fun c => negb (Ascii.eqb c ":")) (chars s).

(** The largest time value of a [Date], in milliseconds. *)
Definition max_time : N := 8640000000000000.

(* ------------------------------------------------------------------------- *)
(** ** JSON values, [JSON.stringify] and [JSON.parse] *)

(** A JSON value.  An object lists its members in property order. *)
Inductive json : Type :=
| JNull
| JBool (b : bool)
| JNum (n : Z)
| JStr (s : string)
| JArr (items : list json)
| JObj (members : list (string * json)).

(** How [JSON.stringify] writes one code unit of a string. *)
Definition quote_char (c : ascii) : list ascii :=
  let n := code c in
  if (n =? 34)%N then [backslash; dquote]
  else if (n =? 92)%N then [backslash; backslash]
  else if (n =? 8)%N then [backslash; "b"%char]
  else if (n =? 12)%N then [backslash; "f"%char]
  else if (n =? 10)%N then [backslash; "n"%char]
  else if (n =? 13)%N then [backslash; "r"%char]
  else if (n =? 9)%N then [backslash; "t"%char]
  else if (n <? 32)%N then
    [backslash; "u"%char; "0"%char; "0"%char; hex_digit (n / 16); hex_digit (n mod 16)]
  else [c].

Definition quote (s : string) : list ascii :=
  dquote :: flat_map quote_char (chars s) ++ [dquote].

Fixpoint join (sep : ascii) (pieces : list (list ascii)) : list ascii :=
  match pieces with
  | [] => []
  | [piece] => piece
  | piece :: rest => piece ++ sep :: join sep rest
  end.

Fixpoint stringify (v : json) : list ascii :=
  match v with
  | JNull => chars "null"
  | JBool true => chars "true"
  | JBool false => chars "false"
  | JNum n => Z_digits n
  | JStr s => quote s
  | JArr items => "["%char :: join "," (map stringify items) ++ ["]"%char]
  | JObj members =>
      "{"%char
        :: join "," (map (fun kv => quote (fst kv) ++ ":"%char :: stringify (snd kv)) members)
        ++ ["}"%char]
  end.

(** [JSON.stringify(v)] *)
Definition JSON_stringify (v : json) : string := text (stringify v).

(** The result of reading a piece of JSON text: a value and the text left,
    a [SyntaxError], or text this model does not interpret (the model then
    says nothing about what [JSON.parse] does). *)
Inductive reading (A : Type) : Type :=
| Read (a : A) (rest : list ascii)
| BadSyntax
| NotModelled.
Arguments Read {A} a rest.
Arguments BadSyntax {A}.
Arguments NotModelled {A}.

Definition reading_map {A B : Type} (f : A -> B) (r : reading A) : reading B :=
  match r with
  | Read a rest => Read (f a) rest
  | BadSyntax => BadSyntax
  | NotModelled => NotModelled
  end.

(** JSON white space: tab, line feed, carriage return, space. *)
Definition is_json_space (c : ascii) : bool :=
  let n := code c in ((n =? 9) || (n =? 10) || (n =? 13) || (n =? 32))%N.

Fixpoint skip_ws (cs : list ascii) : list ascii :=
  match cs with
  | c :: rest => if is_json_space c then skip_ws rest else cs
  | [] => []
  end.

Definition is_digit (c : ascii) : bool := ((48 <=? code c) && (code c <=? 57))%N.

(** Reads decimal digits while there are some. *)
Fixpoint read_decimal (cs : list ascii) (acc : N) : N * list ascii :=
  match cs with
  | c :: rest =>
      if is_digit c then read_decimal rest (10 * acc + (code c - 48))%N
      else (acc, cs)
  | [] => (acc, [])
  end.

(** The largest integer below which every integer is a JavaScript number. *)
Definition max_safe_integer : N := 9007199254740991.

(** The integer part of a number has been read: a fraction or an exponent
    follows, or the number ends here. *)
Definition continues_number (rest : list ascii) : bool :=
  match rest with
  | d :: _ => (Ascii.eqb d "." || Ascii.eqb d "e" || Ascii.eqb d "E")%bool
  | [] => false
  end.

Definition finish_number (negative : bool) (value : N) (rest : list ascii) : reading json :=
  if continues_number rest then NotModelled
  else if (max_safe_integer <? value)%N then NotModelled
  else Read (JNum (if negative then - Z.of_N value else Z.of_N value)) rest.

(** A JSON number.  A number with a fraction or an exponent, or an integer
    above [max_safe_integer], is not modelled. *)
Definition read_number (cs : list ascii) : reading json :=
  let signed :=
    match cs with
    | c :: rest => if Ascii.eqb c "-" then (true, rest) else (false, cs)
    | [] => (false, cs)
    end in
  match snd signed with
  | c :: rest =>
      if is_digit c then
        let int_part := if Ascii.eqb c "0" then (0%N, rest) else read_decimal (snd signed) 0 in
        finish_number (fst signed) (fst int_part) (snd int_part)
      else BadSyntax
  | [] => BadSyntax
  end.

(** The character a one-letter escape stands for. *)
Definition unescape (c : ascii) : option ascii :=
  let n := code c in
  if (n =? 34)%N then Some dquote
  else if (n =? 92)%N then Some backslash
  else if (n =? 47)%N then Some "/"%char
  else if (n =? 98)%N then Some (ascii_of_nat 8)
  else if (n =? 102)%N then Some (ascii_of_nat 12)
  else if (n =? 110)%N then Some (ascii_of_nat 10)
  else if (n =? 114)%N then Some (ascii_of_nat 13)
  else if (n =? 116)%N then Some (ascii_of_nat 9)
  else None.

Definition hex4 (h1 h2 h3 h4 : ascii) : option N :=
  match hex_value h1, hex_value h2, hex_value h3, hex_value h4 with
  | Some a, Some b, Some c, Some d => Some (((a * 16 + b) * 16 + c) * 16 + d)%N
  | _, _, _, _ => None
  end.

(** The characters of a JSON string, read from just after its opening quote.
    An escape that names a code unit above 255 is not modelled. *)
Fixpoint read_string (cs : list ascii) : reading (list ascii) :=
  match cs with
  | [] => BadSyntax
  | c :: rest =>
      if Ascii.eqb c dquote then Read [] rest
      else if Ascii.eqb c backslash then
        match rest with
        | e :: rest' =>
            if Ascii.eqb e "u" then
              match rest' with
              | h1 :: h2 :: h3 :: h4 :: rest'' =>
                  match hex4 h1 h2 h3 h4 with
                  | Some n =>
                      if (n <? 256)%N
                      then reading_map (cons (ascii_of_N n)) (read_string rest'')
                      else NotModelled
                  | None => BadSyntax
                  end
              | _ => BadSyntax
              end
            else
              match unescape e with
              | Some ch => reading_map (cons ch) (read_string rest')
              | None => BadSyntax
              end
        | [] => BadSyntax
        end
      else if (code c <? 32)%N then BadSyntax
      else reading_map (cons c) (read_string rest)
  end.

(** A property name that is a decimal numeral: JavaScript orders such
    properties before the others, which this model does not follow. *)
Definition is_numeral (key : list ascii) : bool :=
  match key with
  | [] => false
  | [c] => is_digit c
  | c :: _ => (is_digit c && negb (Ascii.eqb c "0") && forallb is_digit key)%bool
  end.

(** [obj[key] = v]: a property that exists keeps its place. *)
Fixpoint obj_set (key : string) (v : json) (members : list (string * json))
  : list (string * json) :=
  match members with
  | [] => [(key, v)]
  | (k, w) :: rest =>
      if String.eqb k key then (k, v) :: rest else (k, w) :: obj_set key v rest
  end.

(** The recursive descent.  [fuel] bounds the depth of the recursion; the
    length of the text is always enough, and a reading that runs out of it
    is reported as not modelled. *)
Fixpoint read_value (fuel : nat) (cs : list ascii) : reading json :=
  match fuel with
  | O => NotModelled
  | S fuel' =>
      match skip_ws cs with
      | [] => BadSyntax
      | c :: rest =>
          if Ascii.eqb c "{" then
            match skip_ws rest with
            | d :: rest' =>
                if Ascii.eqb d "}" then Read (JObj []) rest'
                else read_members fuel' (d :: rest') []
            | [] => BadSyntax
            end
          else if Ascii.eqb c "[" then
            match skip_ws rest with
            | d :: rest' =>
                if Ascii.eqb d "]" then Read (JArr []) rest'
                else read_items fuel' (d :: rest') []
            | [] => BadSyntax
            end
          else if Ascii.eqb c dquote then
            reading_map (fun s => JStr (text s)) (read_string rest)
          else if (Ascii.eqb c "-" || is_digit c)%bool then read_number (c :: rest)
          else
            match c :: rest with
            | "n"%char :: "u"%char :: "l"%char :: "l"%char :: rest' => Read JNull rest'
            | "t"%char :: "r"%char :: "u"%char :: "e"%char :: rest' => Read (JBool true) rest'
            | "f"%char :: "a"%char :: "l"%char :: "s"%char :: "e"%char :: rest' =>
                Read (JBool false) rest'
            | _ => BadSyntax
            end
      end
  end

(** The items of an array after [done] (latest first), up to the closing
    bracket. *)
with read_items (fuel : nat) (cs : list ascii) (done : list json) : reading json :=
  match fuel with
  | O => NotModelled
  | S fuel' =>
      match read_value fuel' cs with
      | Read v rest =>
          match skip_ws rest with
          | d :: rest' =>
              if Ascii.eqb d "," then read_items fuel' rest' (v :: done)
              else if Ascii.eqb d "]" then Read (JArr (rev (v :: done))) rest'
              else BadSyntax
          | [] => BadSyntax
          end
      | BadSyntax => BadSyntax
      | NotModelled => NotModelled
      end
  end

(** The members of an object after [done], up to the closing brace. *)
with read_members (fuel : nat) (cs : list ascii) (done : list (string * json))
  : reading json :=
  match fuel with
  | O => NotModelled
  | S fuel' =>
      match skip_ws cs with
      | q :: after_quote =>
          if Ascii.eqb q dquote then
            match read_string after_quote with
            | Read key rest =>
                match skip_ws rest with
                | colon :: rest' =>
                    if Ascii.eqb colon ":" then
                      match read_value fuel' rest' with
                      | Read v rest'' =>
                          if is_numeral key then NotModelled
                          else
                            let done' := obj_set (text key) v done in
                            match skip_ws rest'' with
                            | d :: rest''' =>
                                if Ascii.eqb d "," then read_members fuel' rest''' done'
                                else if Ascii.eqb d "}" then Read (JObj done') rest'''
                                else BadSyntax
                            | [] => BadSyntax
                            end
                      | BadSyntax => BadSyntax
                      | NotModelled => NotModelled
                      end
                    else BadSyntax
                | [] => BadSyntax
                end
            | BadSyntax => BadSyntax
            | NotModelled => NotModelled
            end
          else BadSyntax
      | [] => BadSyntax
      end
  end.

(** What [JSON.parse] does with a text. *)
Inductive parsed : Type :=
| Parsed (data : json)
| ThrowsSyntaxError
| ParseNotModelled.

(** [JSON.parse(s)]: one value, then nothing but white space. *)
Definition JSON_parse (s : string) : parsed :=
  match read_value (S (length (chars s))) (chars s) with
  | Read v rest =>
      match skip_ws rest with
      | [] => Parsed v
      | _ :: _ => ThrowsSyntaxError
      end
  | BadSyntax => ThrowsSyntaxError
  | NotModelled => ParseNotModelled
  end.

(** Induction on a JSON value, with the property known of the items of an
    array and of the values of an object. *)
Section JsonInduction.
Variable P : json -> Prop.
Hypothesis HNull : P JNull.
Hypothesis HBool : forall b, P (JBool b).
Hypothesis HNum : forall n, P (JNum n).
Hypothesis HStr : forall s, P (JStr s).
Hypothesis HArr : forall items, Forall P items -> P (JArr items).
Hypothesis HObj : forall members, Forall (fun kv => P (snd kv)) members -> P (JObj members).

Fixpoint json_induction (v : json) : P v :=
  match v with
  | JNull => HNull
  | JBool b => HBool b
  | JNum n => HNum n
  | JStr s => HStr s
  | JArr items =>
      HArr items
        ((fix all (l : list json) : Forall P l :=
            match l with
            | [] => @List.Forall_nil _ P
            | x :: rest => @List.Forall_cons _ P x rest (json_induction x) (all rest)
            end) items)
  | JObj members =>
      HObj members
        ((fix all (l : list (string * json)) : Forall (fun kv => P (snd kv)) l :=
            match l with
            | [] => @List.Forall_nil _ _
            | (k, x) :: rest =>
                @List.Forall_cons _ (fun kv => P (snd kv)) (k, x) rest (json_induction x) (all rest)
            end) members)
  end.
End JsonInduction.

(** A code unit below 128. *)
Definition is_plain (c : ascii) : bool := (code c <? 128)%N.

Definition plain_text (s : string) : bool := forallb is_plain (chars s).

Fixpoint distinct (keys : list string) : bool :=
  match keys with
  | [] => true
  | k :: rest => (negb (existsb (String.eqb k) rest) && distinct rest)%bool
  end.

(** The payloads that decode to themselves: every string is made of code
    units below 128, every number is an integer up to [max_safe_integer] in
    size, and the property names of an object differ from each other and
    are not numerals. *)
Fixpoint plain_json (v : json) : bool :=
  match v with
  | JNull => true
  | JBool _ => true
  | JNum n => (Z.abs_N n <=? max_safe_integer)%N
  | JStr s => plain_text s
  | JArr items => forallb plain_json items
  | JObj members =>
      (forallb (fun kv => plain_text (fst kv) && negb (is_numeral (chars (fst kv)))
                          && plain_json (snd kv)) members
       && distinct (map fst members))%bool
  end.

(** Fuel that is enough to read the text of [v]. *)
Fixpoint json_size (v : json) : nat :=
  match v with
  | JArr items => S (fold_right (fun x acc => S (json_size x + acc)) 0%nat items)
  | JObj members => S (fold_right (fun kv acc => S (json_size (snd kv) + acc)) 0%nat members)
  | _ => 1%nat
  end.

(** The text of a member of an object. *)
Definition member_text (kv : string * json) : list ascii :=
  quote (fst kv) ++ ":"%char :: stringify (snd kv).

Definition items_size (items : list json) : nat :=
  fold_right (fun x acc => S (json_size x + acc)) 0%nat items.

Definition members_size (members : list (string * json)) : nat :=
  fold_right (fun kv acc => S (json_size (snd kv) + acc)) 0%nat members.

(** The text after a number does not carry the number on. *)
Definition ends_number (rest : list ascii) : bool :=
  match rest with
  | [] => true
  | d :: _ => negb (is_digit d || Ascii.eqb d "." || Ascii.eqb d "e" || Ascii.eqb d "E")
  end.

(** The characters that the text of a value starts with. *)
Definition opens_value (c : ascii) : bool :=
  (Ascii.eqb c "{" || Ascii.eqb c "[" || Ascii.eqb c dquote || Ascii.eqb c "-" || is_digit c
   || Ascii.eqb c "n" || Ascii.eqb c "t" || Ascii.eqb c "f")%bool.

(** Reading the text of [v] gives [v] back and leaves what follows. *)
Definition reads_back (v : json) : Prop :=
  plain_json v = true ->
  forall (fuel : nat) (rest : list ascii),
    (json_size v <= fuel)%nat ->
    ends_number rest = true ->
    read_value fuel (stringify v ++ rest) = Read v rest.

(** A code unit from 1 to 127: one byte in UTF-8, and one character again
    for [hex2ascii]. *)
Definition printable (c : ascii) : bool := ((0 <? code c) && (code c <? 128))%N.

(* ------------------------------------------------------------------------- *)
(** ** The [hex2ascii] package *)

(** What the loop of [hex2ascii] does with [parseInt(hex.substr(i, 2), 16)]:
    NaN and 0 are skipped, any other code is pushed as
    [String.fromCharCode(code)].  A negative code (a pair such as "-f") makes
    a code unit above 255: the result is then not modelled, [None]. *)
Definition push_code (parsed_pair : option Z) (tail : option (list ascii))
  : option (list ascii) :=
  match parsed_pair with
  | None => tail
  | Some n =>
      if n =? 0 then tail
      else if n <? 0 then None
      else option_map (cons (ascii_of_N (Z.to_N n))) tail
  end.

Fixpoint hex2ascii_pairs (cs : list ascii) : option (list ascii) :=
  match cs with
  | [] => Some []
  | [c1] => push_code (parseInt_chars [c1] (Some 16%N)) (Some [])
  | c1 :: c2 :: rest => push_code (parseInt_chars [c1; c2] (Some 16%N)) (hex2ascii_pairs rest)
  end.

(** [hex2ascii(hex)].  The package removes white space and then runs
    [for (i = 0; i < hex.length; i += 2)] with
    [code = parseInt(hex.substr(i, 2), 16)] and, when [code] is neither NaN
    nor 0, [stack.push(String.fromCharCode(code))]: every two characters
    are read as the code of one character.  No input makes it throw. *)
Definition hex2ascii (hex : string) : option string :=
  option_map text (hex2ascii_pairs (List.filter (fun c => negb (is_js_space c)) (chars hex))).

(* ------------------------------------------------------------------------- *)
(** ** Promises *)

(** The values the code rejects with, throws, or logs. *)
Inductive Value : Type :=
| VStr (s : string)                 (* a string *)
| VArr (items : list Value)         (* an array *)
| VSyntaxError                      (* the SyntaxError of JSON.parse *)
| VError (message : string).        (* new Error(message) *)

(** How the promise an operation returns ends.

    - [Resolved v]: [resolve(v)] was called.
    - [Rejected e]: [reject(e)] was called, or a plain executor threw [e].
    - [Uncaught e]: the executor is an [async] function and threw [e] (or
      awaited a promise rejected with [e]) before settling the promise.
      [new Promise] ignores what an executor returns, so the exception only
      rejects the executor's own promise, which nobody handles; the promise
      returned to the caller is never settled. *)
Inductive Outcome (A : Type) : Type :=
| Resolved (value : A)
| Rejected (reason : Value)
| Uncaught (reason : Value).
Arguments Resolved {A} value.
Arguments Rejected {A} reason.
Arguments Uncaught {A} reason.

Definition same_text (a b : option string) : bool :=
  match a, b with
  | Some x, Some y => String.eqb x y
  | None, None => true
  | _, _ => false
  end.

(** A field that holds a string or [null], inside a template literal. *)
Definition show (a : option string) : string := default "null" a.

(* ------------------------------------------------------------------------- *)
(** ** block.js *)

Module BlockClass.

(** [time] is the number 0 when a block is made and a text of digits once
    the block is in a chain. *)
Inductive Time : Type :=
| TimeNumber (n : Z)
| TimeText (s : string).

Record Block : Type := {
  hash : option string;
  height : Z;
  body : string;
  time : Time;
  previousBlockHash : option string
}.

Definition set_hash (h : option string) (b : Block) : Block :=
  {| hash := h; height := height b; body := body b; time := time b;
     previousBlockHash := previousBlockHash b |}.
Definition set_height (n : Z) (b : Block) : Block :=
  {| hash := hash b; height := n; body := body b; time := time b;
     previousBlockHash := previousBlockHash b |}.
Definition set_time (t : Time) (b : Block) : Block :=
  {| hash := hash b; height := height b; body := body b; time := t;
     previousBlockHash := previousBlockHash b |}.
Definition set_previousBlockHash (p : option string) (b : Block) : Block :=
  {| hash := hash b; height := height b; body := body b; time := time b;
     previousBlockHash := p |}.

(** [Buffer.from(JSON.stringify(data)).toString('hex')] *)
Definition encode (data : json) : string := hex_of_bytes (utf8 (JSON_stringify data)).

(** [new Block(data)] *)
Definition new (data : json) : Block :=
  {| hash := None;
     height := 0;
     body := encode data;
     time := TimeNumber 0;
     previousBlockHash := None |}.

Definition nullable (a : option string) : json :=
  match a with
  | Some s => JStr s
  | None => JNull
  end.

(** The block as [JSON.stringify] sees it: its five properties in the
    order the constructor creates them. *)
Definition properties (self : Block) : json :=
  JObj [ ("hash", nullable (hash self));
         ("height", JNum (height self));
         ("body", JStr (body self));
         ("time", match time self with TimeNumber n => JNum n | TimeText s => JStr s end);
         ("previousBlockHash", nullable (previousBlockHash self)) ].

(** [JSON.stringify(block)] *)
Definition stringify (self : Block) : string := JSON_stringify (properties self).

(** [validate()]: the outcome of the promise, and the block as the call
    leaves it. *)
Definition validate (self : Block) : Outcome bool * Block :=
  let currentHash := hash self in
  let self := set_hash None self in
  let newHash := SHA256 (stringify self) in
  let self := set_hash currentHash self in
  if negb (same_text currentHash (Some newHash))
  then (Resolved false, self)
  else (Resolved true, self).

(** [getBData()].  The executor is a plain function: what [JSON.parse]
    throws rejects the promise.  [None] when the decoded body is outside
    the modelled part of [hex2ascii] or [JSON.parse]. *)
Definition getBData (self : Block) : option (Outcome json) :=
  let encodedData := body self in
  match hex2ascii encodedData with
  | None => None
  | Some decodedData =>
      match JSON_parse decodedData with
      | ParseNotModelled => None
      | ThrowsSyntaxError => Some (Rejected VSyntaxError)
      | Parsed data =>
          if height self =? 0
          then Some (Rejected (VStr "Cannot return data for Genesis Block!"))
          else Some (Resolved data)
      end
  end.

End BlockClass.

(* ------------------------------------------------------------------------- *)
(** ** blockchain.js *)

Import BlockClass (Block).

Record Blockchain : Type := {
  chain : list Block;
  height : Z
}.

(** A callback queued by [block.validate().then(...)]: the block it closes
    over and the outcome it will be called with. *)
Inductive Reaction : Type :=
| ThenValidate (block : Block) (settled : Outcome bool).

(** What one queued callback does to [errorLog] when it runs.  A rejection
    skips the [then] callback; the [catch] callback behind it is queued only
    at that moment, after every reaction that is already waiting. *)
Definition run_reaction (errorLog : list Value) (r : Reaction) : list Value :=
  match r with
  | ThenValidate block (Resolved validBlock) =>
      if negb validBlock
      then errorLog ++ [VStr ("Block " ++ BlockClass.stringify block ++ " is not valid")%string]
      else errorLog
  | ThenValidate _ _ => errorLog
  end.

(** A run of [validateChain]: the state when its executor returns. *)
Record Validation : Type := {
  chain_after : list Block;            (* the chain *)
  errorLog_resolved : list Value;      (* errorLog when resolve(errorLog) is called *)
  reactions : list Reaction            (* callbacks queued and not yet run, oldest first *)
}.

Definition link_message (previousBlock block : Block) : Value :=
  VStr ("Hash of Previous Block (" ++ show (BlockClass.hash previousBlock)
        ++ ") != PreviousBlockHash (" ++ show (BlockClass.previousBlockHash block)
        ++ ") of current block")%string.

(** The loop over [self.chain.entries()], from index [height] on. *)
Fixpoint validateChain_loop (fuel : nat) (height : nat) (st : Validation) : Validation :=
  match fuel with
  | O => st
  | S fuel' =>
      match chain_after st !! height with
      | None => st
      | Some block =>
          let validated := BlockClass.validate block in
          let block := snd validated in
          let chain1 := <[height := block]> (chain_after st) in
          let queue1 := reactions st ++ [ThenValidate block (fst validated)] in
          let log1 :=
            if (0 <? height)%nat then
              match chain1 !! (height - 1)%nat with
              | Some previousBlock =>
                  if negb (same_text (BlockClass.previousBlockHash block)
                                     (BlockClass.hash previousBlock))
                  then errorLog_resolved st ++ [link_message previousBlock block]
                  else errorLog_resolved st
              | None => errorLog_resolved st
              end
            else errorLog_resolved st in
          validateChain_loop fuel' (S height)
            {| chain_after := chain1; errorLog_resolved := log1; reactions := queue1 |}
      end
  end.

(** [validateChain()].  The executor runs the whole loop and calls
    [resolve(errorLog)] without waiting for any [validate()] callback. *)
Definition validateChain (self : Blockchain) : Validation :=
  validateChain_loop (length (chain self)) 0
    {| chain_after := chain self; errorLog_resolved := []; reactions := [] |}.

(** The content of [errorLog] when a callback attached to the promise of
    [validateChain] reads it.  The promise is resolved with the array itself,
    and the callbacks of the loop were queued before any callback of the
    caller can be: they have all run, on that same array. *)
Definition errorLog_read (v : Validation) : list Value :=
  fold_left run_reaction (reactions v) (errorLog_resolved v).

(** [_addBlock(block)] at a clock reading [now] (milliseconds): the outcome
    and the chain afterwards.  [block] is an object that is not in the chain
    yet, as in both callers.  The callback given to [then] runs behind the
    callbacks that [validateChain] queued, so it reads [errorLog_read]; the
    promise of [validateChain] is never rejected, so the callback given to
    [catch] never runs. *)
Definition _addBlock (self : Blockchain) (block : Block) (now : N)
  : Outcome Block * Blockchain :=
  let block :=
    if (0 <? length (chain self))%nat then
      match chain self !! (length (chain self) - 1)%nat with
      | Some lastBlock => BlockClass.set_previousBlockHash (BlockClass.hash lastBlock) block
      | None => block
      end
    else block in
  let block := BlockClass.set_time (BlockClass.TimeText (seconds_text now)) block in
  let block := BlockClass.set_height (height self + 1) block in
  let block := BlockClass.set_hash (Some (SHA256 (BlockClass.stringify block))) block in
  let self := {| chain := chain self ++ [block]; height := height self + 1 |} in
  let validation := validateChain self in
  let self := {| chain := chain_after validation; height := height self |} in
  let errorLog := errorLog_read validation in
  if (0 <? length errorLog)%nat then
    (Rejected (VArr errorLog),
     {| chain := removelast (chain self); height := height self - 1 |})
  else (Resolved block, self).

Definition genesis_data : json := JObj [("data", JStr "Genesis Block")].

(** [initializeChain()] *)
Definition initializeChain (self : Blockchain) (now : N) : Outcome unit * Blockchain :=
  if height self =? -1 then
    let block := BlockClass.new genesis_data in
    match _addBlock self block now with
    | (Resolved _, self) => (Resolved tt, self)
    | (Rejected e, self) => (Rejected e, self)
    | (Uncaught e, self) => (Uncaught e, self)
    end
  else (Resolved tt, self).

(** [new Blockchain()] *)
Definition new_Blockchain (now : N) : Blockchain :=
  snd (initializeChain {| chain := []; height := -1 |} now).

(** [getChainHeight()] *)
Definition getChainHeight (self : Blockchain) : Outcome Z := Resolved (height self).

(** [requestMessageOwnershipVerification(address)] *)
Definition requestMessageOwnershipVerification (address : string) (now : N)
  : Outcome string :=
  Resolved (address ++ ":" ++ seconds_text now ++ ":starRegistry")%string.

(** [bitcoinMessage.verify(message, address, signature, null, true)] returns
    a boolean or throws. *)
Inductive Verification : Type :=
| Returns (verifiedMessage : bool)
| Throws (error : Value).

Definition Verifier : Type := string -> string -> string -> Verification.

(** [a - b] and the comparisons of numbers that may be NaN ([None]): a
    comparison with NaN is false. *)
Definition minus (a b : option Z) : option Z :=
  match a, b with
  | Some x, Some y => Some (x - y)
  | _, _ => None
  end.
Definition less (a : option Z) (b : Z) : bool :=
  match a with Some x => x <? b | None => false end.
Definition at_least (a : option Z) (b : Z) : bool :=
  match a with Some x => b <=? x | None => false end.

Definition star_data (address : string) (star : json) : json :=
  JObj [("owner", JStr address); ("star", star)].

(** The rejections of [submitStar] and [getBData], under the names the
    specification gives them. *)
Definition FutureMessageError : Value :=
  VStr "Invalid Time. Message timestamp is from the future!".
Definition ExpiredMessageError : Value :=
  VStr "Expired Message. 5 mins grace to sign message exceeded!".
Definition SignatureVerificationError : Value :=
  VStr "Message signature verification failed!".
Definition GenesisBlockError : Value :=
  VStr "Cannot return data for Genesis Block!".

(** [timeElapsed] in [submitStar], in seconds. *)
Definition elapsed (message : string) (now : N) : option Z :=
  minus (parseInt (seconds_text now) None) (message_time message).

(** [submitStar(address, message, signature, star)].  The clock is read at
    [now] here and at [now'] inside [_addBlock]. *)
Definition submitStar (verify : Verifier) (self : Blockchain)
    (address message signature : string) (star : json) (now now' : N)
  : Outcome Block * Blockchain :=
  let messageTimestamp := message_time message in
  let currentTime := parseInt (seconds_text now) None in
  let timeElapsed := minus currentTime messageTimestamp in
  match verify message address signature with
  | Throws error => (Uncaught error, self)
  | Returns verifiedMessage =>
      if less timeElapsed 0 then
        (Rejected (VStr "Invalid Time. Message timestamp is from the future!"), self)
      else if at_least timeElapsed 300 then
        (Rejected (VStr "Expired Message. 5 mins grace to sign message exceeded!"), self)
      else if negb verifiedMessage then
        (Rejected (VStr "Message signature verification failed!"), self)
      else
        let block := BlockClass.new (star_data address star) in
        match _addBlock self block now' with
        | (Resolved block, self) => (Resolved block, self)
        | (Rejected error, self) => (Uncaught error, self)
        | (Uncaught error, self) => (Uncaught error, self)
        end
  end.

(** [getBlockByHash(hash)] *)
Definition getBlockByHash (self : Blockchain) (hash : string) : Outcome (option Block) :=
  let matchingBlocks :=
    List.filter (fun block => same_text (BlockClass.hash block) (Some hash)) (chain self) in
  if (0 <? length matchingBlocks)%nat then Resolved (matchingBlocks !! 0%nat)
  else Resolved None.

(** [getBlockByHeight(height)] *)
Definition getBlockByHeight (self : Blockchain) (height : Z) : Outcome (option Block) :=
  Resolved (List.filter (fun p => BlockClass.height p =? height) (chain self) !! 0%nat).

(** [data.key]; [None] is [undefined]. *)
Definition get (key : string) (data : json) : option json :=
  match data with
  | JObj members => option_map snd (find (fun kv => String.eqb (fst kv) key) members)
  | _ => None
  end.

(** [data.owner === address] *)
Definition owner_is (address : string) (data : json) : bool :=
  match get "owner" data with
  | Some (JStr owner) => String.eqb owner address
  | _ => false
  end.

(** [p.then((data) => { test(data) })]: the body of the callback is a
    statement, so what [test] computes is dropped and the new promise
    resolves with [undefined].  [None] as for [getBData]. *)
Definition then_statement (p : option (Outcome json)) (test : json -> bool)
  : option (Outcome unit) :=
  match p with
  | Some (Resolved data) => let _ := test data in Some (Resolved tt)
  | Some (Rejected error) => Some (Rejected error)
  | Some (Uncaught error) => Some (Uncaught error)
  | None => None
  end.

(** [p.catch((error) => reject(error))]: a rejection is handled by the
    callback, whose [reject] finds the promise of [getStarsByWalletAddress]
    resolved already and changes nothing. *)
Definition catch_reject (p : option (Outcome unit)) : option (Outcome unit) :=
  match p with
  | Some (Rejected _) => Some (Resolved tt)
  | other => other
  end.

(** What the callback given to [filter] returns in [getStarsByWalletAddress]:
    [false], or the promise that [getBData().then(...).catch(...)] makes. *)
Inductive Tested : Type :=
| IsFalse
| IsPromise (p : option (Outcome unit)).

(** [ToBoolean]: an object is true. *)
Definition ToBoolean (t : Tested) : bool :=
  match t with
  | IsFalse => false
  | IsPromise _ => true
  end.

Fixpoint filter_entries {A : Type} (test : A -> nat -> Tested) (index : nat) (l : list A)
  : list A :=
  match l with
  | [] => []
  | x :: rest =>
      if ToBoolean (test x index) then x :: filter_entries test (S index) rest
      else filter_entries test (S index) rest
  end.

(** [getStarsByWalletAddress(address)].  [filter] keeps a block when the
    callback returns a true value; the callback returns [index > 0 && p] with
    [p] a promise.  [resolve(stars)] is called before any callback of a
    [getBData] promise runs, so a later [reject(error)] changes nothing. *)
Definition getStarsByWalletAddress (self : Blockchain) (address : string)
  : Outcome (list Block) :=
  let stars :=
    filter_entries
      (fun block index =>
         if (0 <? index)%nat
         then IsPromise (catch_reject
                           (then_statement (BlockClass.getBData block) (owner_is address)))
         else IsFalse)
      0%nat (chain self) in
  Resolved stars.

(** The block as [_addBlock] completes it before it pushes it. *)
Definition completed (self : Blockchain) (block : Block) (now : N) : Block :=
  let block :=
    match last (chain self) with
    | Some lastBlock => BlockClass.set_previousBlockHash (BlockClass.hash lastBlock) block
    | None => block
    end in
  let block := BlockClass.set_time (BlockClass.TimeText (seconds_text now)) block in
  let block := BlockClass.set_height (height self + 1) block in
  BlockClass.set_hash (Some (SHA256 (BlockClass.stringify block))) block.

(** The chain once [_addBlock] has pushed the block and raised the height,
    before validation. *)
Definition pushed (self : Blockchain) (block : Block) (now : N) : Blockchain :=
  {| chain := chain self ++ [completed self block now]; height := height self + 1 |}.

(* ------------------------------------------------------------------------- *)
(** ** What a run of [validateChain] logs, by recursion on the chain *)

(** The callback that the loop queues for [block]. *)
Definition reaction_of (block : Block) : Reaction :=
  ThenValidate (snd (BlockClass.validate block)) (fst (BlockClass.validate block)).

(** The block in front of index [height], when there is one. *)
Definition previous_of (height : nat) (blocks : list Block) : option Block :=
  if (0 <? height)%nat then blocks !! (height - 1)%nat else None.

(** The entries for broken links over [blocks], which come after
    [previous]. *)
Fixpoint link_errors (previous : option Block) (blocks : list Block) : list Value :=
  match blocks with
  | [] => []
  | block :: rest =>
      match previous with
      | Some previousBlock =>
          if negb (same_text (BlockClass.previousBlockHash block)
                             (BlockClass.hash previousBlock))
          then link_message previousBlock block :: link_errors (Some block) rest
          else link_errors (Some block) rest
      | None => link_errors (Some block) rest
      end
  end.

(** The entries for the blocks whose [validate()] resolves with [false]. *)
Definition invalid_errors (blocks : list Block) : list Value :=
  flat_map (fun block => run_reaction [] (reaction_of block)) blocks.

(** The chain before [initializeChain] has run. *)
Definition empty : Blockchain := {| chain := []; height := -1 |}.

(* ------------------------------------------------------------------------- *)
(** ** The states the operations reach *)

(** One call of an operation that can change the chain.  Calls do not
    overlap: each one runs to its end before the next starts.  [_addBlock]
    is among them, called with a block object that is not in the chain. *)
Inductive step (verify : Verifier) : Blockchain -> Blockchain -> Prop :=
| step_initializeChain self now :
    step verify self (snd (initializeChain self now))
| step_addBlock self block now :
    step verify self (snd (_addBlock self block now))
| step_submitStar self address message signature star now now' :
    step verify self (snd (submitStar verify self address message signature star now now'))
| step_validateChain self :
    step verify self {| chain := chain_after (validateChain self); height := height self |}.

Inductive reachable (verify : Verifier) : Blockchain -> Prop :=
| reachable_new now : reachable verify (new_Blockchain now)
| reachable_step self self' :
    reachable verify self -> step verify self self' -> reachable verify self'.

(** What the chain keeps true: the height of a block is its index, a block
    names the hash of the block in front of it, the first block is the
    genesis block, and [height] is the last index. *)
Definition chain_invariant (self : Blockchain) : Prop :=
  (forall (i : nat) (b : Block), chain self !! i = Some b -> BlockClass.height b = Z.of_nat i)
  /\ (forall (i : nat) (b p : Block),
        chain self !! S i = Some b -> chain self !! i = Some p ->
        BlockClass.previousBlockHash b = BlockClass.hash p)
  /\ (exists g : Block,
        chain self !! 0%nat = Some g
        /\ BlockClass.height g = 0
        /\ BlockClass.previousBlockHash g = None
        /\ option_map JSON_parse (hex2ascii (BlockClass.body g)) = Some (Parsed genesis_data))
  /\ height self = Z.of_nat (length (chain self)) - 1.

(* ------------------------------------------------------------------------- *)
(** ** The specification's reading of two operations *)

Fixpoint decode_all (blocks : list Block) : option (Outcome (list json)) :=
  match blocks with
  | [] => Some (Resolved [])
  | block :: rest =>
      match BlockClass.getBData block, decode_all rest with
      | Some (Resolved data), Some (Resolved datas) => Some (Resolved (data :: datas))
      | Some (Resolved _), other => other
      | Some (Rejected error), _ => Some (Rejected error)
      | Some (Uncaught error), _ => Some (Uncaught error)
      | None, _ => None
      end
  end.

(** Following the specification's words for [getStarsByWalletAddress]: scan
    the chain without the genesis block, decode the payload of each block,
    keep the payloads whose owner is [address], return their stars in chain
    order; a payload that cannot be decoded fails the call. *)
Definition spec_getStarsByWalletAddress (self : Blockchain) (address : string)
  : option (Outcome (list json)) :=
  match decode_all (tail (chain self)) with
  | Some (Resolved datas) =>
      Some (Resolved (omap (get "star") (List.filter (owner_is address) datas)))
  | other => other
  end.

(* ------------------------------------------------------------------------- *)
(** ** Sample inputs *)

Definition sample_address : string := "1A2b3C".
Definition other_address : string := "1Zz9yX".
Definition sample_message : string := "1A2b3C:1700000010:starRegistry".
Definition sample_signature : string :=
  "H8K4+1MvyJo9tcr2YN2KejwvX1oqneyCH+fsUL1z1WBdWmswB9bijeFfOfMqK68kQ5RO6ZxhomoXQG3fkLaBl+Q=".

(** An oracle for the calls of [bitcoinMessage.verify] made below.  The
    library decodes the signature from base64 and starts with
    [if (buffer.length !== 65) throw new Error('Invalid signature length')],
    so it throws on the empty signature; the sample signature is taken to
    be the one of the sample message under the sample address. *)
Definition sample_verify : Verifier :=
  fun message address signature =>
    if String.eqb signature "" then Throws (VError "Invalid signature length")
    else Returns (String.eqb message sample_message && String.eqb address sample_address
                  && String.eqb signature sample_signature)%bool.

(** The declination holds a degree sign, the code unit 176. *)
Definition sample_star : json :=
  JObj [ ("dec", JStr ("68" ++ String (ascii_of_nat 176) " 52' 56.9")%string);
         ("ra", JStr "16h 29m 1.0s");
         ("story", JStr "Found star using https://www.google.com/sky/") ].

Definition plain_star : json :=
  JObj [ ("dec", JStr "68 52 56.9"); ("ra", JStr "16h 29m 1.0s"); ("story", JStr "Tested") ].

(** A fresh chain, made when the clock reads 1700000000000 ms. *)
Definition chain0 : Blockchain := new_Blockchain 1700000000000.

(** The same chain after two stars were submitted, 20 and 30 seconds later. *)
Definition chain1 : Blockchain :=
  snd (submitStar sample_verify chain0 sample_address sample_message sample_signature
         plain_star 1700000020000 1700000020001).
Definition chain2 : Blockchain :=
  snd (submitStar sample_verify chain1 sample_address sample_message sample_signature
         sample_star 1700000030000 1700000030001).

(** [block.body = body], done from outside the chain. *)
Definition tamper (body : string) (block : Block) : Block :=
  {| BlockClass.hash := BlockClass.hash block;
     BlockClass.height := BlockClass.height block;
     BlockClass.body := body;
     BlockClass.time := BlockClass.time block;
     BlockClass.previousBlockHash := BlockClass.previousBlockHash block |}.

(** [chain1] after its block at height 1 was given another body. *)
Definition tampered_chain : Blockchain :=
  {| chain := list_alter (tamper (BlockClass.encode (star_data other_address plain_star)))
                1%nat (chain chain1);
     height := height chain1 |}.

(** The block of [tampered_chain] at height 1. *)
Definition tampered_block : Block :=
  default (BlockClass.new JNull) (chain tampered_chain !! 1%nat).

(** The block of [chain2] at height 2, which holds [sample_star]. *)
Definition star_block : Block :=
  default (BlockClass.new JNull) (chain chain2 !! 2%nat).

(** [sample_star] with its degree sign read as the two code units 194 and
    176. *)
Definition garbled_star : json :=
  JObj [ ("dec", JStr ("68" ++ String (ascii_of_nat 194) (String (ascii_of_nat 176) " 52' 56.9"))%string);
         ("ra", JStr "16h 29m 1.0s");
         ("story", JStr "Found star using https://www.google.com/sky/") ].

(** A genesis block whose body was replaced by the hexadecimal text of an
    opening brace. *)
Definition broken_genesis : Block :=
  tamper "7b" (default (BlockClass.new JNull) (chain chain0 !! 0%nat)).

(** Messages stamped long before and long after the sample clock readings. *)
Definition expired_message : string := "1A2b3C:1600000000:starRegistry".
Definition future_message : string := "1A2b3C:1800000000:starRegistry".

(** A message with no second field, and an oracle for a caller who signed
    it: every call returns [true]. *)
Definition untimed_message : string := "starRegistry".
Definition trusting_verify : Verifier := fun _ _ _ => Returns true.

(** The block of [chain1] at height 1, which holds [plain_star]. *)
Definition first_star_block : Block :=
  default (BlockClass.new JNull) (chain chain1 !! 1%nat).

(** What someone does who changes a block and wants it to pass
    [validate()]: store the hash of the block serialized with [hash] set
    to [null]. *)
Definition rehash (block : Block) : Block :=
  BlockClass.set_hash
    (Some (SHA256 (BlockClass.stringify (BlockClass.set_hash None block)))) block.

(** The last block of [chain2] with the payload of another owner and the
    hash that goes with it. *)
Definition forged_block : Block :=
  rehash (tamper (BlockClass.encode (star_data other_address plain_star)) star_block).

(* ========================================================================= *)
(** * Properties *)

(* ------------------------------------------------------------------------- *)
(** ** Text: numbers, JSON and hexadecimal *)

(** The hash function agrees with the test vectors of the standard. *)
Example SHA256_abc :
  SHA256 "abc" = "ba7816bf8f01cfea414140de5dae2223b00361a396177a9cb410ff61f20015ad".
Proof. vm_compute. reflexivity. Qed.

Example SHA256_two_chunks :
  SHA256 "abcdbcdecdefdefgefghfghighijhijkijkljklmklmnlmnomnopnopq"
  = "248d6a61d20638b8e5c026930c3e6039a33ce45964ff2167f6ecedd419db06c1".
Proof. vm_compute. reflexivity. Qed.

Example genesis_body :
  BlockClass.body (BlockClass.new genesis_data)
  = "7b2264617461223a2247656e6573697320426c6f636b227d".
Proof. vm_compute. reflexivity. Qed.

Section TextFacts.

Lemma chars_text (l : list ascii) : chars (text l) = l.
Proof. apply list_ascii_of_string_of_list_ascii. Qed.

Lemma text_chars (s : string) : text (chars s) = s.
Proof. apply string_of_list_ascii_of_string. Qed.

(** reading back one quoted character *)
Lemma read_string_quote_char (c : ascii) (rest : list ascii) :
  read_string (quote_char c ++ rest) = reading_map (cons c) (read_string rest).
Proof.
  destruct c as [[] [] [] [] [] [] [] []]; reflexivity.
Qed.

Lemma read_string_quoted (cs rest : list ascii) :
  read_string (flat_map quote_char cs ++ dquote :: rest) = Read cs rest.
Proof.
  induction cs as [|c cs IH]; cbn [flat_map app].
  - reflexivity.
  - rewrite <- app_assoc, read_string_quote_char, IH. reflexivity.
Qed.


Lemma code_digit (d : N) : (d < 10)%N -> code (digit d) = (48 + d)%N.
Proof. intros Hd. unfold code, digit. apply N_ascii_embedding. lia. Qed.

Lemma is_digit_digit (d : N) : (d < 10)%N -> is_digit (digit d) = true.
Proof.
  intros Hd. unfold is_digit. rewrite (code_digit d Hd).
  apply andb_true_intro. split; apply N.leb_le; lia.
Qed.

Lemma read_decimal_digit (d : N) (rest : list ascii) (acc : N) :
  (d < 10)%N ->
  read_decimal (digit d :: rest) acc = read_decimal rest (10 * acc + d)%N.
Proof.
  intros Hd. cbn [read_decimal]. rewrite (is_digit_digit d Hd), (code_digit d Hd).
  f_equal. lia.
Qed.

Lemma digits_fuel_S (f : nat) (n : N) :
  digits_fuel (S f) n
  = if (n <? 10)%N then [digit n] else digits_fuel f (n / 10)%N ++ [digit (n mod 10)%N].
Proof. reflexivity. Qed.

Lemma read_decimal_digits_fuel (f : nat) :
  forall (n : N) (rest : list ascii),
    (n < 2 ^ N.of_nat f)%N ->
    read_decimal (digits_fuel (S f) n ++ rest) 0 = read_decimal rest n.
Proof.
  induction f as [|f IH]; intros n rest Hn; rewrite digits_fuel_S.
  - assert (n = 0%N) as -> by (cbn in Hn; lia). cbn [N.ltb N.compare app].
    rewrite read_decimal_digit by lia. reflexivity.
  - destruct (n <? 10)%N eqn:Hsmall.
    + apply N.ltb_lt in Hsmall. cbn [app]. rewrite read_decimal_digit by lia.
      f_equal.
    + apply N.ltb_ge in Hsmall. rewrite <- app_assoc. cbn [app].
      rewrite IH.
      * rewrite read_decimal_digit by (apply N.mod_lt; lia).
        f_equal. rewrite (N.div_mod n 10) at 3 by lia. lia.
      * rewrite Nat2N.inj_succ, N.pow_succ_r' in Hn.
        apply N.Div0.div_lt_upper_bound. lia.
Qed.

Lemma read_decimal_digits (n : N) (rest : list ascii) :
  read_decimal (digits n ++ rest) 0 = read_decimal rest n.
Proof.
  unfold digits. apply read_decimal_digits_fuel.
  rewrite N2Nat.id. apply N.size_gt.
Qed.

Lemma digits_fuel_head (f : nat) :
  forall n : N,
    (n < 2 ^ N.of_nat f)%N -> (0 < n)%N ->
    exists (d : N) (tl : list ascii),
      digits_fuel (S f) n = digit d :: tl /\ (0 < d < 10)%N.
Proof.
  induction f as [|f IH]; intros n Hn Hpos; rewrite digits_fuel_S.
  - cbn in Hn. lia.
  - destruct (n <? 10)%N eqn:Hsmall.
    + apply N.ltb_lt in Hsmall. exists n, []. split; [reflexivity|lia].
    + apply N.ltb_ge in Hsmall.
      destruct (IH (n / 10)%N) as (d & tl & Heq & Hd).
      * rewrite Nat2N.inj_succ, N.pow_succ_r' in Hn.
        apply N.Div0.div_lt_upper_bound. lia.
      * apply N.div_str_pos. lia.
      * rewrite Heq. exists d, (tl ++ [digit (n mod 10)]). split; [reflexivity|exact Hd].
Qed.

Lemma digits_head (n : N) :
  (0 < n)%N ->
  exists (d : N) (tl : list ascii), digits n = digit d :: tl /\ (0 < d < 10)%N.
Proof.
  intros Hpos. unfold digits. apply digits_fuel_head; [|exact Hpos].
  rewrite N2Nat.id. apply N.size_gt.
Qed.

Lemma digits_zero : digits 0 = ["0"%char].
Proof. reflexivity. Qed.


Lemma read_decimal_stop (rest : list ascii) (acc : N) :
  ends_number rest = true -> read_decimal rest acc = (acc, rest).
Proof.
  destruct rest as [|d rest]; [reflexivity|]. cbn [ends_number read_decimal].
  destruct (is_digit d); [discriminate|reflexivity].
Qed.

Lemma digit_eqb_zero (d : N) : (0 < d < 10)%N -> Ascii.eqb (digit d) "0" = false.
Proof.
  intros Hd. apply Ascii.eqb_neq. intros Heq.
  apply (f_equal code) in Heq. rewrite code_digit in Heq by lia. cbn in Heq. lia.
Qed.

Lemma digit_eqb_minus (d : N) : (d < 10)%N -> Ascii.eqb (digit d) "-" = false.
Proof.
  intros Hd. apply Ascii.eqb_neq. intros Heq.
  apply (f_equal code) in Heq. rewrite code_digit in Heq by lia. cbn in Heq. lia.
Qed.

Lemma finish_number_ends (negative : bool) (value : N) (rest : list ascii) :
  (value <= max_safe_integer)%N ->
  ends_number rest = true ->
  finish_number negative value rest
  = Read (JNum (if negative then - Z.of_N value else Z.of_N value)) rest.
Proof.
  intros Hv Hrest. unfold finish_number. apply N.ltb_ge in Hv. rewrite Hv.
  destruct rest as [|d rest']; [reflexivity|].
  cbn [ends_number continues_number] in *.
  destruct (is_digit d); [discriminate|]. cbn [orb] in Hrest.
  destruct (_ || _ || _)%bool; [discriminate|reflexivity].
Qed.

Lemma read_number_natural (negative : bool) (m : N) (rest : list ascii) :
  (m <= max_safe_integer)%N ->
  ends_number rest = true ->
  read_number ((if negative then ["-"%char] else []) ++ digits m ++ rest)
  = Read (JNum (if negative then - Z.of_N m else Z.of_N m)) rest.
Proof.
  intros Hsafe Hrest.
  destruct (N.eq_dec m 0%N) as [->|Hnz].
  - rewrite digits_zero.
    destruct negative.
    + exact (finish_number_ends true 0%N rest Hsafe Hrest).
    + exact (finish_number_ends false 0%N rest Hsafe Hrest).
  - destruct (digits_head m) as (d & tl & Hdigits & Hd); [lia|].
    assert (Hread : read_decimal (digit d :: tl ++ rest) 0 = (m, rest)).
    { change (digit d :: tl ++ rest) with ((digit d :: tl) ++ rest).
      rewrite <- Hdigits, read_decimal_digits. apply read_decimal_stop, Hrest. }
    rewrite Hdigits. unfold read_number.
    destruct negative; cbn [app fst snd].
    + change (Ascii.eqb "-" "-") with true. cbn [fst snd].
      rewrite is_digit_digit, digit_eqb_zero by lia.
      rewrite Hread. apply (finish_number_ends true m rest Hsafe Hrest).
    + rewrite digit_eqb_minus by lia. cbn [fst snd].
      rewrite is_digit_digit, digit_eqb_zero by lia.
      rewrite Hread. apply (finish_number_ends false m rest Hsafe Hrest).
Qed.

Lemma read_number_Z_digits (n : Z) (rest : list ascii) :
  (Z.abs_N n <= max_safe_integer)%N ->
  ends_number rest = true ->
  read_number (Z_digits n ++ rest) = Read (JNum n) rest.
Proof.
  intros Hsafe Hrest. unfold Z_digits.
  destruct (n <? 0) eqn:Hneg.
  - apply Z.ltb_lt in Hneg.
    change (("-"%char :: digits (Z.abs_N n)) ++ rest)
      with (["-"%char] ++ digits (Z.abs_N n) ++ rest).
    rewrite (read_number_natural true (Z.abs_N n) rest Hsafe Hrest). do 2 f_equal. lia.
  - apply Z.ltb_ge in Hneg.
    change (digits (Z.abs_N n) ++ rest) with ([] ++ digits (Z.abs_N n) ++ rest).
    rewrite (read_number_natural false (Z.abs_N n) rest Hsafe Hrest). do 2 f_equal. lia.
Qed.


(** unfolding equations *)
Lemma read_value_S (fuel : nat) (cs : list ascii) :
  read_value (S fuel) cs
  = match skip_ws cs with
    | [] => BadSyntax
    | c :: rest =>
        if Ascii.eqb c "{" then
          match skip_ws rest with
          | d :: rest' =>
              if Ascii.eqb d "}" then Read (JObj []) rest'
              else read_members fuel (d :: rest') []
          | [] => BadSyntax
          end
        else if Ascii.eqb c "[" then
          match skip_ws rest with
          | d :: rest' =>
              if Ascii.eqb d "]" then Read (JArr []) rest'
              else read_items fuel (d :: rest') []
          | [] => BadSyntax
          end
        else if Ascii.eqb c dquote then
          reading_map (fun s => JStr (text s)) (read_string rest)
        else if (Ascii.eqb c "-" || is_digit c)%bool then read_number (c :: rest)
        else
          match c :: rest with
          | "n"%char :: "u"%char :: "l"%char :: "l"%char :: rest' => Read JNull rest'
          | "t"%char :: "r"%char :: "u"%char :: "e"%char :: rest' => Read (JBool true) rest'
          | "f"%char :: "a"%char :: "l"%char :: "s"%char :: "e"%char :: rest' =>
              Read (JBool false) rest'
          | _ => BadSyntax
          end
    end.
Proof. reflexivity. Qed.

Lemma read_items_S (fuel : nat) (cs : list ascii) (done : list json) :
  read_items (S fuel) cs done
  = match read_value fuel cs with
    | Read v rest =>
        match skip_ws rest with
        | d :: rest' =>
            if Ascii.eqb d "," then read_items fuel rest' (v :: done)
            else if Ascii.eqb d "]" then Read (JArr (rev (v :: done))) rest'
            else BadSyntax
        | [] => BadSyntax
        end
    | BadSyntax => BadSyntax
    | NotModelled => NotModelled
    end.
Proof. reflexivity. Qed.

Lemma read_members_S (fuel : nat) (cs : list ascii) (done : list (string * json)) :
  read_members (S fuel) cs done
  = match skip_ws cs with
    | q :: after_quote =>
        if Ascii.eqb q dquote then
          match read_string after_quote with
          | Read key rest =>
              match skip_ws rest with
              | colon :: rest1 =>
                  if Ascii.eqb colon ":" then
                    match read_value fuel rest1 with
                    | Read v rest2 =>
                        if is_numeral key then NotModelled
                        else
                          let done' := obj_set (text key) v done in
                          match skip_ws rest2 with
                          | d :: rest3 =>
                              if Ascii.eqb d "," then read_members fuel rest3 done'
                              else if Ascii.eqb d "}" then Read (JObj done') rest3
                              else BadSyntax
                          | [] => BadSyntax
                          end
                    | BadSyntax => BadSyntax
                    | NotModelled => NotModelled
                    end
                  else BadSyntax
              | [] => BadSyntax
              end
          | BadSyntax => BadSyntax
          | NotModelled => NotModelled
          end
        else BadSyntax
    | [] => BadSyntax
    end.
Proof. reflexivity. Qed.


Lemma Z_digits_head (n : Z) :
  exists (c : ascii) (tl : list ascii),
    Z_digits n = c :: tl /\ (Ascii.eqb c "-" || is_digit c)%bool = true.
Proof.
  unfold Z_digits. destruct (n <? 0).
  - eexists _, _. split; reflexivity.
  - destruct (N.eq_dec (Z.abs_N n) 0%N) as [->|Hnz].
    + eexists _, _. split; reflexivity.
    + destruct (digits_head (Z.abs_N n)) as (d & tl & -> & Hd); [lia|].
      exists (digit d), tl. split; [reflexivity|].
      rewrite is_digit_digit by lia. apply orb_true_r.
Qed.

Lemma stringify_head (v : json) :
  exists (c : ascii) (tl : list ascii), stringify v = c :: tl /\ opens_value c = true.
Proof.
  destruct v as [|[]|n|s|items|members]; try (eexists _, _; split; reflexivity).
  destruct (Z_digits_head n) as (c & tl & Heq & Hc).
  exists c, tl. split; [exact Heq|].
  unfold opens_value. destruct (Ascii.eqb c "-"), (is_digit c); try discriminate;
    rewrite ?orb_true_r; reflexivity.
Qed.

Lemma opens_value_facts (c : ascii) :
  opens_value c = true ->
  is_json_space c = false /\ Ascii.eqb c "]" = false /\ Ascii.eqb c "}" = false.
Proof.
  destruct c as [[] [] [] [] [] [] [] []]; vm_compute; intros H;
    try discriminate H; repeat split.
Qed.

Lemma read_value_number (fuel : nat) (c : ascii) (tl : list ascii) :
  (Ascii.eqb c "-" || is_digit c)%bool = true ->
  read_value (S fuel) (c :: tl) = read_number (c :: tl).
Proof.
  destruct c as [[] [] [] [] [] [] [] []]; intros H; try discriminate H; reflexivity.
Qed.


Lemma skip_ws_char (c : ascii) (tl : list ascii) :
  is_json_space c = false -> skip_ws (c :: tl) = c :: tl.
Proof. intros H. cbn [skip_ws]. rewrite H. reflexivity. Qed.




Lemma stringify_arr (items : list json) :
  stringify (JArr items) = "["%char :: join "," (map stringify items) ++ ["]"%char].
Proof. reflexivity. Qed.

Lemma stringify_obj (members : list (string * json)) :
  stringify (JObj members) = "{"%char :: join "," (map member_text members) ++ ["}"%char].
Proof. reflexivity. Qed.

Lemma join_two (sep : ascii) (a b : list ascii) (l : list (list ascii)) :
  join sep (a :: b :: l) = a ++ sep :: join sep (b :: l).
Proof. reflexivity. Qed.


Lemma read_items_stringify (items : list json) :
  Forall reads_back items ->
  forallb plain_json items = true ->
  items <> [] ->
  forall (fuel : nat) (done : list json) (rest : list ascii),
    (items_size items <= fuel)%nat ->
    read_items fuel (join "," (map stringify items) ++ "]"%char :: rest) done
    = Read (JArr (rev done ++ items)) rest.
Proof.
  induction items as [|v items IH]; [congruence|].
  intros Hback Hplain _ fuel done rest Hfuel.
  apply Forall_cons in Hback as [Hv Hitems].
  cbn [forallb] in Hplain. apply andb_prop in Hplain as [Hpv Hpitems].
  unfold items_size in Hfuel. cbn [fold_right] in Hfuel. fold (items_size items) in Hfuel.
  destruct fuel as [|fuel]; [lia|]. rewrite read_items_S.
  destruct items as [|v2 items].
  - cbn [map join]. rewrite (Hv Hpv) by (reflexivity || lia).
    rewrite skip_ws_char by reflexivity.
    change (Ascii.eqb "]" ",") with false. change (Ascii.eqb "]" "]") with true.
    cbn [rev]. reflexivity.
  - cbn [map]. rewrite join_two, <- app_assoc. cbn [app].
    rewrite (Hv Hpv) by (reflexivity || lia).
    rewrite skip_ws_char by reflexivity.
    change (Ascii.eqb "," ",") with true. cbn match.
    change (stringify v2 :: map stringify items) with (map stringify (v2 :: items)).
    rewrite IH; [|assumption|assumption|discriminate|lia].
    cbn [rev]. rewrite <- app_assoc. reflexivity.
Qed.

Lemma obj_set_fresh (key : string) (v : json) (done : list (string * json)) :
  forallb (fun k => negb (String.eqb k key)) (map fst done) = true ->
  obj_set key v done = done ++ [(key, v)].
Proof.
  induction done as [|[k w] done IH]; cbn [map forallb obj_set app fst]; [reflexivity|].
  intros H. apply andb_prop in H as [Hk Hdone].
  apply negb_true_iff in Hk. rewrite Hk, IH by assumption. reflexivity.
Qed.

Lemma distinct_app_key (l1 l2 : list string) (k : string) :
  distinct (l1 ++ k :: l2) = true ->
  forallb (fun k0 => negb (String.eqb k0 k)) l1 = true.
Proof.
  induction l1 as [|x l1 IH]; cbn [app distinct forallb]; [reflexivity|].
  intros H. apply andb_prop in H as [Hx Hrest].
  rewrite (IH Hrest), andb_true_r.
  apply negb_true_iff in Hx. apply negb_true_iff.
  destruct (String.eqb x k) eqn:E; [|reflexivity].
  rewrite existsb_app in Hx. cbn [existsb] in Hx. rewrite E in Hx.
  rewrite orb_true_l, orb_true_r in Hx. discriminate.
Qed.

Lemma read_string_quote (k : string) (rest : list ascii) :
  exists tl : list ascii,
    quote k ++ rest = dquote :: tl /\ read_string tl = Read (chars k) rest.
Proof.
  unfold quote. exists (flat_map quote_char (chars k) ++ dquote :: rest). split.
  - cbn [app]. rewrite <- app_assoc. reflexivity.
  - apply read_string_quoted.
Qed.

Lemma read_members_stringify (members : list (string * json)) :
  Forall (fun kv => reads_back (snd kv)) members ->
  forallb (fun kv => plain_text (fst kv) && negb (is_numeral (chars (fst kv)))
                     && plain_json (snd kv)) members = true ->
  members <> [] ->
  forall (fuel : nat) (done : list (string * json)) (rest : list ascii),
    (members_size members <= fuel)%nat ->
    distinct (map fst done ++ map fst members) = true ->
    read_members fuel (join "," (map member_text members) ++ "}"%char :: rest) done
    = Read (JObj (done ++ members)) rest.
Proof.
  induction members as [|[k v] members IH]; [congruence|].
  intros Hback Hplain _ fuel done rest Hfuel Hkeys.
  apply Forall_cons in Hback as [Hv Hmembers]. cbn [snd] in Hv.
  cbn [forallb fst snd] in Hplain. apply andb_prop in Hplain as [Hkv Hpmembers].
  apply andb_prop in Hkv as [Hk Hpv]. apply andb_prop in Hk as [_ Hnumeral].
  apply negb_true_iff in Hnumeral.
  unfold members_size in Hfuel. cbn [fold_right snd] in Hfuel.
  fold (members_size members) in Hfuel.
  cbn [map fst] in Hkeys.
  pose proof (obj_set_fresh k v done (distinct_app_key _ _ _ Hkeys)) as Hset.
  destruct fuel as [|fuel]; [lia|]. rewrite read_members_S.
  assert (Hstep : forall tail : list ascii,
    ends_number tail = true ->
    exists tl : list ascii,
      member_text (k, v) ++ tail = dquote :: tl
      /\ read_string tl = Read (chars k) (":"%char :: stringify v ++ tail)).
  { intros tail _. unfold member_text. cbn [fst snd]. rewrite <- app_assoc. cbn [app].
    apply read_string_quote. }
  destruct members as [|kv2 members].
  - cbn [map join].
    destruct (Hstep ("}"%char :: rest) eq_refl) as (tl & -> & Hread).
    rewrite skip_ws_char by reflexivity.
    change (Ascii.eqb dquote dquote) with true. cbn match. rewrite Hread.
    rewrite skip_ws_char by reflexivity.
    change (Ascii.eqb ":" ":") with true. cbn match.
    rewrite (Hv Hpv) by (reflexivity || lia).
    rewrite Hnumeral, text_chars. cbv zeta. rewrite Hset.
    rewrite skip_ws_char by reflexivity.
    change (Ascii.eqb "}" ",") with false. change (Ascii.eqb "}" "}") with true.
    reflexivity.
  - cbn [map]. rewrite join_two, <- app_assoc. cbn [app].
    destruct (Hstep (","%char :: join "," (member_text kv2 :: map member_text members)
                       ++ "}"%char :: rest) eq_refl) as (tl & -> & Hread).
    rewrite skip_ws_char by reflexivity.
    change (Ascii.eqb dquote dquote) with true. cbn match. rewrite Hread.
    rewrite skip_ws_char by reflexivity.
    change (Ascii.eqb ":" ":") with true. cbn match.
    rewrite (Hv Hpv) by (reflexivity || lia).
    rewrite Hnumeral, text_chars. cbv zeta. rewrite Hset.
    rewrite skip_ws_char by reflexivity.
    change (Ascii.eqb "," ",") with true. cbn match.
    change (member_text kv2 :: map member_text members)
      with (map member_text (kv2 :: members)).
    rewrite IH; [|assumption|assumption|discriminate|lia|].
    + rewrite <- app_assoc. reflexivity.
    + rewrite map_app. cbn [map fst]. rewrite <- app_assoc. exact Hkeys.
Qed.

Lemma reads_back_all (v : json) : reads_back v.
Proof.
  induction v as [|b|n|s|items IH|members IH] using json_induction;
    intros Hplain fuel rest Hfuel Hrest;
    (destruct fuel as [|fuel]; [cbn in Hfuel; lia|]).
  - reflexivity.
  - destruct b; reflexivity.
  - destruct (Z_digits_head n) as (c & tl & Heq & Hc).
    cbn [plain_json] in Hplain. apply N.leb_le in Hplain.
    cbn [stringify]. pose proof (read_number_Z_digits n rest Hplain Hrest) as Hread.
    rewrite Heq in *. cbn [app] in *. rewrite read_value_number by exact Hc. exact Hread.
  - cbn [stringify]. destruct (read_string_quote s rest) as (tl & -> & Hread).
    rewrite read_value_S, skip_ws_char by reflexivity.
    change (Ascii.eqb dquote "{") with false. change (Ascii.eqb dquote "[") with false.
    change (Ascii.eqb dquote dquote) with true. cbn match.
    rewrite Hread. cbn [reading_map]. rewrite text_chars. reflexivity.
  - rewrite stringify_arr. cbn [app]. rewrite <- app_assoc. cbn [app].
    rewrite read_value_S, skip_ws_char by reflexivity.
    change (Ascii.eqb "[" "{") with false. change (Ascii.eqb "[" "[") with true. cbn match.
    destruct items as [|v items]; [reflexivity|].
    destruct (stringify_head v) as (c & tl & Heq & Hc).
    destruct (opens_value_facts c Hc) as (Hspace & Hbracket & _).
    assert (exists tl' : list ascii,
      join "," (map stringify (v :: items)) ++ "]"%char :: rest = c :: tl') as [tl' Hshape].
    { destruct items; cbn [map]; [cbn [join]|rewrite join_two];
        rewrite Heq; cbn [app]; eexists; reflexivity. }
    rewrite Hshape, skip_ws_char, Hbracket by exact Hspace. rewrite <- Hshape.
    cbn [plain_json] in Hplain. cbn [json_size] in Hfuel.
    rewrite read_items_stringify; [reflexivity|assumption|assumption|discriminate|].
    unfold items_size. lia.
  - rewrite stringify_obj. cbn [app]. rewrite <- app_assoc. cbn [app].
    rewrite read_value_S, skip_ws_char by reflexivity.
    change (Ascii.eqb "{" "{") with true. cbn match.
    destruct members as [|[k v] members]; [reflexivity|].
    cbn [plain_json] in Hplain. apply andb_prop in Hplain as [Hplain Hkeys].
    cbn [json_size] in Hfuel.
    assert (exists tl' : list ascii,
      join "," (map member_text ((k, v) :: members)) ++ "}"%char :: rest = dquote :: tl')
      as [tl' Hshape].
    { destruct members; cbn [map]; [cbn [join]|rewrite join_two];
        unfold member_text at 1, quote; cbn [app fst]; eexists; reflexivity. }
    rewrite Hshape, skip_ws_char by reflexivity.
    change (Ascii.eqb dquote "}") with false. cbn match. rewrite <- Hshape.
    rewrite read_members_stringify; [reflexivity|assumption|assumption|discriminate| |].
    + unfold members_size. lia.
    + exact Hkeys.
Qed.


(** the text of a value is long enough to be fuel for reading it *)
Lemma length_join_bound {A : Type} (render : A -> list ascii) (size : A -> nat)
    (l : list A) :
  Forall (fun x => (size x <= length (render x))%nat) l ->
  (fold_right (fun x acc => S (size x + acc)) 0%nat l
   <= length (join "," (map render l)) + 1)%nat.
Proof.
  induction l as [|x l IH]; intros Hall; [cbn; lia|].
  apply Forall_cons in Hall as [Hx Hl]. specialize (IH Hl).
  cbn [fold_right map]. destruct l as [|y l].
  - cbn [map join fold_right]. lia.
  - cbn [map] in *. rewrite join_two, length_app. cbn [length]. lia.
Qed.

Lemma json_size_length (v : json) : (json_size v <= length (stringify v))%nat.
Proof.
  induction v as [|b|n|s|items IH|members IH] using json_induction.
  - cbn. lia.
  - destruct b; cbn; lia.
  - destruct (Z_digits_head n) as (c & tl & Heq & _). cbn [json_size stringify].
    rewrite Heq. cbn [length]. lia.
  - cbn [json_size stringify]. unfold quote. cbn [length]. lia.
  - rewrite stringify_arr. cbn [json_size length]. rewrite length_app. cbn [length].
    pose proof (length_join_bound stringify json_size items IH). lia.
  - rewrite stringify_obj. cbn [json_size length]. rewrite length_app. cbn [length].
    assert (Hall : Forall (fun kv => (json_size (snd kv) <= length (member_text kv))%nat)
                     members).
    { eapply Forall_impl; [exact IH|]. intros [k x] Hx. cbn [snd] in *.
      unfold member_text. cbn [fst snd]. rewrite length_app. cbn [length]. lia. }
    pose proof (length_join_bound member_text (fun kv => json_size (snd kv)) members Hall).
    lia.
Qed.

(** [JSON.parse(JSON.stringify(v))] is [v] for a plain value. *)
Lemma parse_stringify (v : json) :
  plain_json v = true -> JSON_parse (JSON_stringify v) = Parsed v.
Proof.
  intros Hplain. unfold JSON_parse, JSON_stringify. rewrite chars_text.
  rewrite <- (app_nil_r (stringify v)) at 2.
  rewrite (reads_back_all v Hplain) by (reflexivity || (pose proof (json_size_length v); lia)).
  reflexivity.
Qed.


(** the characters of the text of a plain value *)
Lemma printable_quote_char (c : ascii) :
  is_plain c = true -> forallb printable (quote_char c) = true.
Proof.
  destruct c as [[] [] [] [] [] [] [] []]; intros H; try discriminate H; reflexivity.
Qed.

Lemma printable_quote (s : string) :
  plain_text s = true -> forallb printable (quote s) = true.
Proof.
  unfold plain_text, quote. intros Hs. cbn [forallb]. rewrite forallb_app. cbn [forallb].
  change (printable dquote) with true. rewrite andb_true_r. cbn [andb].
  induction (chars s) as [|c cs IH]; [reflexivity|].
  cbn [forallb flat_map] in *. apply andb_prop in Hs as [Hc Hcs].
  rewrite forallb_app, (printable_quote_char c Hc), (IH Hcs). reflexivity.
Qed.

Lemma printable_digit (d : N) : (d < 10)%N -> printable (digit d) = true.
Proof.
  intros Hd. unfold printable. rewrite (code_digit d Hd).
  apply andb_true_intro. split; apply N.ltb_lt; lia.
Qed.

Lemma printable_digits_fuel (f : nat) :
  forall n : N, forallb printable (digits_fuel f n) = true.
Proof.
  induction f as [|f IH]; intros n; [reflexivity|]. rewrite digits_fuel_S.
  destruct (n <? 10)%N eqn:Hsmall.
  - apply N.ltb_lt in Hsmall. cbn [forallb]. rewrite printable_digit by lia. reflexivity.
  - rewrite forallb_app, IH. cbn [forallb].
    rewrite printable_digit by (apply N.mod_lt; lia). reflexivity.
Qed.

Lemma printable_Z_digits (n : Z) : forallb printable (Z_digits n) = true.
Proof.
  unfold Z_digits, digits. destruct (n <? 0); cbn [forallb];
    rewrite printable_digits_fuel; reflexivity.
Qed.

Lemma printable_join (pieces : list (list ascii)) :
  Forall (fun piece => forallb printable piece = true) pieces ->
  forallb printable (join "," pieces) = true.
Proof.
  induction pieces as [|piece pieces IH]; intros Hall; [reflexivity|].
  apply Forall_cons in Hall as [Hpiece Hpieces]. specialize (IH Hpieces).
  destruct pieces as [|piece2 pieces]; [exact Hpiece|].
  rewrite join_two, forallb_app, Hpiece. cbn [forallb andb].
  change (printable ",") with true. exact IH.
Qed.

Lemma printable_stringify (v : json) :
  plain_json v = true -> forallb printable (stringify v) = true.
Proof.
  induction v as [|b|n|s|items IH|members IH] using json_induction; intros Hplain.
  - reflexivity.
  - destruct b; reflexivity.
  - apply printable_Z_digits.
  - apply printable_quote, Hplain.
  - rewrite stringify_arr. cbn [forallb]. rewrite forallb_app. cbn [forallb].
    change (printable "[") with true. change (printable "]") with true.
    rewrite andb_true_r. cbn [andb]. apply printable_join.
    cbn [plain_json] in Hplain. rewrite forallb_forall in Hplain.
    apply Forall_map. rewrite Forall_forall in IH |- *.
    intros x Hx. apply IH; [exact Hx|]. apply Hplain.
    apply list_elem_of_In. exact Hx.
  - rewrite stringify_obj. cbn [forallb]. rewrite forallb_app. cbn [forallb].
    change (printable "{") with true. change (printable "}") with true.
    rewrite andb_true_r. cbn [andb]. apply printable_join.
    cbn [plain_json] in Hplain. apply andb_prop in Hplain as [Hplain _].
    rewrite forallb_forall in Hplain.
    apply Forall_map. rewrite Forall_forall in IH |- *.
    intros [k x] Hx. specialize (IH _ Hx).
    assert (Hin : In (k, x) members) by (apply list_elem_of_In; exact Hx).
    specialize (Hplain (k, x) Hin). cbn [fst snd] in *.
    apply andb_prop in Hplain as [Hk Hpx]. apply andb_prop in Hk as [Hk _].
    unfold member_text. cbn [fst snd]. rewrite forallb_app. cbn [forallb].
    rewrite (printable_quote k Hk), (IH Hpx). reflexivity.
Qed.

(** [hex2ascii] undoes the hexadecimal text of printable characters *)
Lemma hex2ascii_char (c : ascii) (tl : list ascii) :
  printable c = true ->
  hex2ascii_pairs
    (List.filter (fun c => negb (is_js_space c)) (flat_map hex_byte (utf8_char c) ++ tl))
  = option_map (cons c)
      (hex2ascii_pairs (List.filter (fun c => negb (is_js_space c)) tl)).
Proof.
  destruct c as [[] [] [] [] [] [] [] []]; intros H; try discriminate H; reflexivity.
Qed.

Lemma hex2ascii_chars (cs : list ascii) :
  forallb printable cs = true ->
  hex2ascii_pairs
    (List.filter (fun c => negb (is_js_space c)) (flat_map hex_byte (flat_map utf8_char cs)))
  = Some cs.
Proof.
  induction cs as [|c cs IH]; intros Hcs; [reflexivity|].
  cbn [forallb] in Hcs. apply andb_prop in Hcs as [Hc Hcs].
  cbn [flat_map]. rewrite flat_map_app, (hex2ascii_char c _ Hc), (IH Hcs). reflexivity.
Qed.

Lemma hex2ascii_encode (v : json) :
  plain_json v = true -> hex2ascii (BlockClass.encode v) = Some (JSON_stringify v).
Proof.
  intros Hplain. unfold hex2ascii, BlockClass.encode, hex_of_bytes, utf8, JSON_stringify.
  rewrite !chars_text, hex2ascii_chars by (apply printable_stringify, Hplain).
  reflexivity.
Qed.

(** A block made from a plain payload, once it is not at height 0, gives
    the payload back. *)
Lemma getBData_encode (b : Block) (data : json) :
  plain_json data = true ->
  BlockClass.body b = BlockClass.encode data ->
  BlockClass.height b <> 0 ->
  BlockClass.getBData b = Some (Resolved data).
Proof.
  intros Hplain Hbody Hheight. unfold BlockClass.getBData.
  rewrite Hbody, (hex2ascii_encode data Hplain), (parse_stringify data Hplain).
  destruct (BlockClass.height b =? 0) eqn:E; [apply Z.eqb_eq in E; contradiction|reflexivity].
Qed.

(** *** The clock's seconds as text, and read back by [parseInt] *)

Lemma split_colon_piece (piece rest : list ascii) :
  forallb (fun c => negb (Ascii.eqb c ":")) piece = true ->
  split_colon (piece ++ ":"%char :: rest) = piece :: split_colon rest.
Proof.
  induction piece as [|c piece IH]; intros Hpiece; [reflexivity|].
  cbn [forallb] in Hpiece. apply andb_prop in Hpiece as [Hc Hpiece].
  cbn [app split_colon]. apply negb_true_iff in Hc. rewrite Hc, (IH Hpiece). reflexivity.
Qed.

Lemma is_digit_not_colon (c : ascii) :
  is_digit c = true -> negb (Ascii.eqb c ":") = true.
Proof.
  intros Hc. apply negb_true_iff, Ascii.eqb_neq. intros ->. discriminate.
Qed.

Lemma is_digit_digits_fuel (f : nat) :
  forall n : N, forallb is_digit (digits_fuel f n) = true.
Proof.
  induction f as [|f IH]; intros n; [reflexivity|]. rewrite digits_fuel_S.
  destruct (n <? 10)%N eqn:Hsmall.
  - apply N.ltb_lt in Hsmall. cbn [forallb]. rewrite is_digit_digit by exact Hsmall. reflexivity.
  - rewrite forallb_app, IH. cbn [forallb].
    rewrite is_digit_digit by (apply N.mod_lt; lia). reflexivity.
Qed.

Lemma digits_fuel_enough (f1 : nat) :
  forall (f2 : nat) (n : N),
    (n < 2 ^ N.of_nat f1)%N -> (n < 2 ^ N.of_nat f2)%N ->
    digits_fuel (S f1) n = digits_fuel (S f2) n.
Proof.
  induction f1 as [|f1 IH]; intros f2 n H1 H2;
    rewrite (digits_fuel_S f2 n), (digits_fuel_S _ n);
    destruct (n <? 10)%N eqn:Hsmall; try reflexivity; apply N.ltb_ge in Hsmall.
  - cbn in H1. lia.
  - destruct f2 as [|f2]; [cbn in H2; lia|].
    rewrite (IH f2); [reflexivity| |];
      rewrite Nat2N.inj_succ, N.pow_succ_r' in *;
      apply N.Div0.div_lt_upper_bound; lia.
Qed.

Lemma digits_step (n : N) :
  (10 <= n)%N -> digits n = digits (n / 10) ++ [digit (n mod 10)].
Proof.
  intros Hn. unfold digits.
  pose proof (N.size_gt n) as Hsize. rewrite <- (N2Nat.id (N.size n)) in Hsize.
  destruct (N.to_nat (N.size n)) as [|s]; [cbn in Hsize; lia|].
  rewrite digits_fuel_S. apply N.ltb_ge in Hn as Hge. rewrite Hge. f_equal.
  apply digits_fuel_enough.
  - rewrite Nat2N.inj_succ, N.pow_succ_r' in Hsize.
    apply N.Div0.div_lt_upper_bound. lia.
  - rewrite N2Nat.id. apply N.size_gt.
Qed.

Lemma seconds_text_digits (now : N) :
  (1000 <= now)%N -> seconds_text now = text (digits (now / 1000)).
Proof.
  intros Hnow. unfold seconds_text, slice_0_minus3, toString, Z_digits.
  rewrite chars_text.
  replace (Z.of_N now <? 0) with false by (symmetry; apply Z.ltb_ge; lia).
  rewrite Zabs2N.id.
  rewrite (digits_step now) by lia.
  rewrite (digits_step (now / 10)) by (apply N.div_le_lower_bound; lia).
  rewrite (digits_step (now / 10 / 10))
    by (apply N.div_le_lower_bound; [lia|]; apply N.div_le_lower_bound; lia).
  rewrite !N.Div0.div_div. change (10 * (10 * 10))%N with 1000%N.
  rewrite <- !app_assoc. cbn [app]. rewrite length_app. cbn [length].
  rewrite Nat.add_sub, take_app_length. reflexivity.
Qed.

Lemma digit_value_digit (d : N) : (d < 10)%N -> digit_value 10 (digit d) = Some d.
Proof.
  intros Hd. unfold digit_value, hex_value. rewrite (code_digit d Hd).
  replace ((48 <=? 48 + d) && (48 + d <=? 57))%N with true
    by (symmetry; apply andb_true_intro; split; apply N.leb_le; lia).
  replace (48 + d - 48)%N with d by lia.
  apply N.ltb_lt in Hd. rewrite Hd. reflexivity.
Qed.

Lemma read_digits_digits_fuel (f : nat) :
  forall (n : N) (rest : list ascii),
    (n < 2 ^ N.of_nat f)%N ->
    read_digits 10 (digits_fuel (S f) n ++ rest) None = read_digits 10 rest (Some n).
Proof.
  induction f as [|f IH]; intros n rest Hn; rewrite digits_fuel_S.
  - assert (n = 0%N) as -> by (cbn in Hn; lia). reflexivity.
  - destruct (n <? 10)%N eqn:Hsmall.
    + apply N.ltb_lt in Hsmall. cbn [app read_digits].
      rewrite digit_value_digit by exact Hsmall. reflexivity.
    + apply N.ltb_ge in Hsmall. rewrite <- app_assoc. cbn [app].
      rewrite IH.
      * cbn [read_digits]. rewrite digit_value_digit by (apply N.mod_lt; lia).
        cbn [default]. unfold id. do 2 f_equal. pose proof (N.Div0.div_mod n 10). lia.
      * rewrite Nat2N.inj_succ, N.pow_succ_r' in Hn.
        apply N.Div0.div_lt_upper_bound. lia.
Qed.

Lemma is_digit_not_space (c : ascii) : is_digit c = true -> is_js_space c = false.
Proof.
  unfold is_digit, is_js_space. intros Hc. apply andb_prop in Hc as [Hlo Hhi].
  apply N.leb_le in Hlo, Hhi.
  repeat (apply orb_false_intro); [apply andb_false_intro2| |];
    first [apply N.leb_gt|apply N.eqb_neq]; lia.
Qed.

Lemma parseInt_digits (n : N) : parseInt_chars (digits n) None = Some (Z.of_N n).
Proof.
  destruct (N.eq_dec n 0%N) as [->|Hnz]; [reflexivity|].
  destruct (digits_head n) as (d & tl & Hdigits & Hd); [lia|].
  assert (Hread : read_digits 10 (digits n) None = Some n).
  { rewrite <- (app_nil_r (digits n)). unfold digits.
    rewrite read_digits_digits_fuel; [reflexivity|].
    rewrite N2Nat.id. apply N.size_gt. }
  unfold parseInt_chars. rewrite Hdigits in *. cbn [skip_js_space].
  rewrite is_digit_not_space by (apply is_digit_digit; lia).
  rewrite digit_eqb_minus by lia.
  replace (Ascii.eqb (digit d) "+") with false.
  2:{ symmetry. apply Ascii.eqb_neq. intros Heq. apply (f_equal code) in Heq.
      rewrite code_digit in Heq by lia. cbn in Heq. lia. }
  cbn [snd fst]. unfold strip_0x.
  rewrite (digit_eqb_zero d Hd). cbn [andb].
  destruct tl; cbn [fst snd]; rewrite Hread; reflexivity.
Qed.

Lemma chars_append (s t : string) : chars (s ++ t)%string = chars s ++ chars t.
Proof. induction s as [|c s IH]; cbn; [reflexivity|]. f_equal. exact IH. Qed.

Lemma no_colon_digits (n : N) :
  forallb (fun c => negb (Ascii.eqb c ":")) (digits n) = true.
Proof.
  apply forallb_forall. intros c Hc. apply is_digit_not_colon.
  pose proof (is_digit_digits_fuel (S (N.to_nat (N.size n))) n) as Hall.
  rewrite forallb_forall in Hall. apply Hall, Hc.
Qed.

Lemma message_time_fields (address : string) (n : N) (tail : string) :
  no_colon address = true ->
  message_time (address ++ ":" ++ text (digits n) ++ ":" ++ tail) = Some (Z.of_N n).
Proof.
  intros Haddress. unfold message_time.
  rewrite chars_append. change (chars (":" ++ text (digits n) ++ ":" ++ tail)%string)
    with (":"%char :: chars (text (digits n) ++ ":" ++ tail)%string).
  rewrite (split_colon_piece _ _ Haddress), chars_append, chars_text.
  change (chars (":" ++ tail)%string) with (":"%char :: chars tail).
  rewrite (split_colon_piece _ _ (no_colon_digits n)).
  apply parseInt_digits.
Qed.

Lemma currentTime_seconds (now : N) :
  (1000 <= now)%N -> parseInt (seconds_text now) None = Some (Z.of_N (now / 1000)).
Proof.
  intros Hnow. unfold parseInt. rewrite (seconds_text_digits now Hnow), chars_text.
  apply parseInt_digits.
Qed.

End TextFacts.

(** The proofs below never look inside the hash or the serializer. *)
Opaque SHA256 JSON_stringify.

(* ------------------------------------------------------------------------- *)
(** ** Blocks *)

Section BlockFacts.

Implicit Types (self b : Block).

Lemma same_text_true (x y : option string) : same_text x y = true <-> x = y.
Proof.
  destruct x as [x|], y as [y|]; cbn; try (split; congruence).
  rewrite String.eqb_eq. split; congruence.
Qed.

Lemma set_hash_back b :
  BlockClass.set_hash (BlockClass.hash b) (BlockClass.set_hash None b) = b.
Proof. destruct b; reflexivity. Qed.

Lemma validate_restores b : snd (BlockClass.validate b) = b.
Proof.
  unfold BlockClass.validate.
  destruct (negb _); cbn [snd]; apply set_hash_back.
Qed.

Lemma validate_resolves b :
  fst (BlockClass.validate b)
  = Resolved (same_text (BlockClass.hash b)
                (Some (SHA256 (BlockClass.stringify (BlockClass.set_hash None b))))).
Proof.
  unfold BlockClass.validate.
  destruct (same_text _ _); reflexivity.
Qed.

Lemma validate_true_hash b :
  fst (BlockClass.validate b) = Resolved true
  <-> BlockClass.hash b
      = Some (SHA256 (BlockClass.stringify (BlockClass.set_hash None b))).
Proof.
  rewrite validate_resolves, <- same_text_true.
  destruct (same_text _ _); split; congruence.
Qed.

(** C7. [validate()] resolves with [true] exactly when the stored hash is
    the hash of the block serialized with its [hash] set to [null]; it
    always resolves, with a boolean; and it leaves the block as it found
    it. *)
Theorem validate_recomputes_hash self :
  (fst (BlockClass.validate self) = Resolved true
   <-> BlockClass.hash self
       = Some (SHA256 (BlockClass.stringify (BlockClass.set_hash None self))))
  /\ (exists validBlock : bool, fst (BlockClass.validate self) = Resolved validBlock)
  /\ snd (BlockClass.validate self) = self.
Proof.
  split; [|split].
  - apply validate_true_hash.
  - rewrite validate_resolves. eexists. reflexivity.
  - apply validate_restores.
Qed.

End BlockFacts.

(* ------------------------------------------------------------------------- *)
(** ** The log of [validateChain] *)

Section ValidateChainFacts.

Implicit Types (self : Blockchain) (l : list Block) (log : list Value).

(** The loop leaves the chain as it was, adds the link errors to the log
    and queues one callback per block. *)
Lemma validateChain_loop_spec (fuel : nat) :
  forall (i : nat) l log (q : list Reaction),
    (i + fuel = length l)%nat ->
    validateChain_loop fuel i {| chain_after := l; errorLog_resolved := log; reactions := q |}
    = {| chain_after := l;
         errorLog_resolved := log ++ link_errors (previous_of i l) (drop i l);
         reactions := q ++ map reaction_of (drop i l) |}.
Proof.
  induction fuel as [|fuel IH]; intros i l log q Hlen.
  - cbn [validateChain_loop]. rewrite drop_ge by lia. cbn. rewrite !app_nil_r. reflexivity.
  - cbn [validateChain_loop chain_after errorLog_resolved reactions].
    destruct (l !! i) as [b|] eqn:Hb.
    2:{ apply lookup_ge_None in Hb. lia. }
    rewrite validate_restores, (list_insert_id l i b Hb).
    rewrite IH by lia.
    rewrite (drop_S l b i Hb). cbn [map link_errors].
    replace (previous_of (S i) l) with (Some b)
      by (unfold previous_of; cbn; rewrite Nat.sub_0_r; symmetry; exact Hb).
    f_equal.
    + unfold previous_of. destruct (0 <? i)%nat eqn:Hi.
      * destruct (l !! (i - 1)%nat) as [p|] eqn:Hp.
        -- destruct (negb _); [rewrite <- app_assoc|]; reflexivity.
        -- apply lookup_ge_None in Hp. apply Nat.ltb_lt in Hi. lia.
      * reflexivity.
    + rewrite <- app_assoc. cbn [app]. unfold reaction_of at 2.
      rewrite validate_restores. reflexivity.
Qed.

Lemma validateChain_spec self :
  validateChain self
  = {| chain_after := chain self;
       errorLog_resolved := link_errors None (chain self);
       reactions := map reaction_of (chain self) |}.
Proof.
  unfold validateChain. rewrite validateChain_loop_spec by lia.
  rewrite drop_0. reflexivity.
Qed.

Lemma chain_after_validateChain self : chain_after (validateChain self) = chain self.
Proof. rewrite validateChain_spec. reflexivity. Qed.

Lemma run_reaction_app log (r : Reaction) :
  run_reaction log r = log ++ run_reaction [] r.
Proof.
  destruct r as [b [[|]| |]]; cbn; rewrite ?app_nil_r; reflexivity.
Qed.

Lemma run_reactions l :
  forall log, fold_left run_reaction (map reaction_of l) log = log ++ invalid_errors l.
Proof.
  unfold invalid_errors.
  induction l as [|b l IH]; intros log; cbn [map fold_left flat_map].
  - rewrite app_nil_r. reflexivity.
  - rewrite IH, (run_reaction_app log), <- app_assoc. reflexivity.
Qed.

(** What a caller reads: the link errors first, then the invalid blocks. *)
Lemma errorLog_read_spec self :
  errorLog_read (validateChain self)
  = link_errors None (chain self) ++ invalid_errors (chain self).
Proof.
  rewrite validateChain_spec. unfold errorLog_read. cbn [reactions errorLog_resolved].
  apply run_reactions.
Qed.

Lemma link_errors_app l b :
  forall previous,
    link_errors previous (l ++ [b])
    = link_errors previous l
        ++ link_errors (match last l with Some p => Some p | None => previous end) [b].
Proof.
  induction l as [|x l IH]; intros previous.
  - cbn [app last link_errors]. reflexivity.
  - cbn [app link_errors]. rewrite !IH.
    replace (match last (x :: l) with Some p => Some p | None => previous end)
      with (match last l with Some p => Some p | None => Some x end).
    2:{ destruct l as [|y l]; [reflexivity|]. rewrite last_cons_cons.
        destruct (last (y :: l)) eqn:E; [reflexivity|].
        apply last_None in E. discriminate. }
    destruct previous as [p|]; [destruct (negb _)|]; reflexivity.
Qed.

Lemma invalid_errors_app l1 l2 :
  invalid_errors (l1 ++ l2) = invalid_errors l1 ++ invalid_errors l2.
Proof. unfold invalid_errors. apply flat_map_app. Qed.

Lemma invalid_errors_one b :
  invalid_errors [b] = [] <-> fst (BlockClass.validate b) = Resolved true.
Proof.
  unfold invalid_errors, reaction_of. cbn [flat_map]. rewrite app_nil_r.
  rewrite validate_restores, validate_resolves.
  destruct (same_text _ _); cbn; split; congruence.
Qed.

(** What a caller reads holds an entry for every block that fails its own
    validation and for every broken link; the entries for the links are
    already there when the promise is resolved. *)
Lemma invalid_errors_elem l (i : nat) b :
  l !! i = Some b ->
  fst (BlockClass.validate b) = Resolved false ->
  VStr ("Block " ++ BlockClass.stringify b ++ " is not valid")%string ∈ invalid_errors l.
Proof.
  intros Hi Hfalse. unfold invalid_errors.
  apply list_elem_of_In, in_flat_map. exists b. split.
  - apply list_elem_of_In. eapply list_elem_of_lookup_2. exact Hi.
  - unfold reaction_of. rewrite validate_restores, Hfalse. cbn. left. reflexivity.
Qed.

Lemma link_errors_further l (previous : option Block) (x : Block) (e : Value) :
  e ∈ link_errors (Some x) l -> e ∈ link_errors previous (x :: l).
Proof.
  intros He. cbn [link_errors].
  destruct previous as [q|]; [destruct (negb _)|]; try exact He.
  apply list_elem_of_further. exact He.
Qed.

Lemma link_errors_elem l :
  forall (previous : option Block) (i : nat) b p,
    l !! S i = Some b ->
    l !! i = Some p ->
    BlockClass.previousBlockHash b <> BlockClass.hash p ->
    link_message p b ∈ link_errors previous l.
Proof.
  induction l as [|x l IH]; intros previous i b p Hb Hp Hneq; [discriminate|].
  apply link_errors_further. destruct i as [|i].
  - cbn in Hp, Hb. injection Hp as ->. destruct l as [|y l]; [discriminate|].
    cbn in Hb. injection Hb as ->. cbn [link_errors].
    destruct (same_text _ _) eqn:E; [apply same_text_true in E; contradiction|].
    cbn [negb]. apply list_elem_of_here.
  - cbn in Hp, Hb. eapply IH; eauto.
Qed.




End ValidateChainFacts.


(** The moment of [resolve(errorLog)].  On [tampered_chain] the array is
    still empty when the executor hands it to [resolve]; the callback that
    logs the block at height 1 is queued already and runs before any
    callback of a caller, on that same array, so the entry is in the list
    that every caller reads. *)
Lemma validateChain_resolves_early :
  chain tampered_chain !! 1%nat = Some tampered_block
  /\ fst (BlockClass.validate tampered_block) = Resolved false
  /\ errorLog_resolved (validateChain tampered_chain) = []
  /\ errorLog_read (validateChain tampered_chain)
     = [VStr ("Block " ++ BlockClass.stringify tampered_block ++ " is not valid")%string].
Proof. vm_compute. repeat split; reflexivity. Qed.

(* ------------------------------------------------------------------------- *)
(** ** Appending a block *)

Section AppendFacts.

Implicit Types (self : Blockchain) (block : Block) (now : N).

Lemma last_by_length (l : list Block) :
  (if (0 <? length l)%nat then l !! (length l - 1)%nat else None) = last l.
Proof.
  rewrite last_lookup. destruct l as [|b l]; [reflexivity|].
  cbn [length Nat.ltb Nat.leb]. f_equal. cbn. lia.
Qed.

Lemma _addBlock_unfold self block now :
  _addBlock self block now
  = if (0 <? length (errorLog_read (validateChain (pushed self block now))))%nat
    then (Rejected (VArr (errorLog_read (validateChain (pushed self block now)))), self)
    else (Resolved (completed self block now), pushed self block now).
Proof.
  unfold _addBlock, pushed, completed. rewrite <- last_by_length. cbv zeta.
  cbn [chain height]. rewrite chain_after_validateChain. cbn [chain].
  destruct (0 <? length (chain self))%nat;
    [destruct (chain self !! (length (chain self) - 1)%nat)|];
    (destruct (0 <? length _)%nat; [|reflexivity]);
    rewrite removelast_last; destruct self as [c h]; cbn [chain height];
    do 2 f_equal; lia.
Qed.

Lemma completed_fields self block now :
  BlockClass.height (completed self block now) = height self + 1
  /\ BlockClass.body (completed self block now) = BlockClass.body block
  /\ BlockClass.previousBlockHash (completed self block now)
     = match last (chain self) with
       | Some p => BlockClass.hash p
       | None => BlockClass.previousBlockHash block
       end.
Proof. unfold completed. destruct (last (chain self)); repeat split; reflexivity. Qed.

(** A block that comes with no hash is valid once completed. *)
Lemma completed_validates self block now :
  BlockClass.hash block = None ->
  fst (BlockClass.validate (completed self block now)) = Resolved true.
Proof.
  intros Hnone. rewrite validate_resolves. f_equal.
  apply same_text_true. unfold completed.
  destruct (last (chain self)); destruct block; cbn in Hnone; subst; reflexivity.
Qed.

Lemma completed_link self block now :
  link_errors (last (chain self)) [completed self block now] = [].
Proof.
  unfold completed. destruct (last (chain self)) as [p|]; [|reflexivity].
  cbn [link_errors BlockClass.previousBlockHash BlockClass.set_hash BlockClass.set_height
       BlockClass.set_time BlockClass.set_previousBlockHash].
  rewrite (proj2 (same_text_true _ _) eq_refl). reflexivity.
Qed.

Lemma errorLog_read_pushed self block now :
  errorLog_read (validateChain (pushed self block now))
  = (link_errors None (chain self)
       ++ link_errors (last (chain self)) [completed self block now])
      ++ invalid_errors (chain self) ++ invalid_errors [completed self block now].
Proof.
  rewrite errorLog_read_spec. unfold pushed. cbn [chain].
  rewrite link_errors_app, invalid_errors_app.
  destruct (last (chain self)); reflexivity.
Qed.

(** On a chain that validates, a block that comes with no hash is
    accepted. *)
Lemma pushed_validates self block now :
  errorLog_read (validateChain self) = [] ->
  BlockClass.hash block = None ->
  errorLog_read (validateChain (pushed self block now)) = [].
Proof.
  rewrite errorLog_read_spec, errorLog_read_pushed. intros Hself Hnone.
  apply app_eq_nil in Hself as [-> ->].
  rewrite completed_link.
  rewrite (proj2 (invalid_errors_one _) (completed_validates self block now Hnone)).
  reflexivity.
Qed.

Lemma _addBlock_result self block now :
  (exists errorLog, _addBlock self block now = (Rejected (VArr errorLog), self))
  \/ (_addBlock self block now = (Resolved (completed self block now), pushed self block now)
      /\ errorLog_read (validateChain (pushed self block now)) = []).
Proof.
  rewrite _addBlock_unfold.
  destruct (errorLog_read (validateChain (pushed self block now))) as [|e log] eqn:E.
  - right. split; reflexivity.
  - left. eexists. reflexivity.
Qed.

Lemma _addBlock_new self block now :
  errorLog_read (validateChain self) = [] ->
  BlockClass.hash block = None ->
  _addBlock self block now = (Resolved (completed self block now), pushed self block now).
Proof.
  intros Hself Hnone. rewrite _addBlock_unfold.
  rewrite (pushed_validates self block now Hself Hnone). reflexivity.
Qed.

(** C1. [_addBlock] pushes the completed block, raises the height and
    validates the whole chain.  When the log it reads back holds an error,
    the call is rejected with that log and the chain is again what it was
    before the call, block list and height; when the log is empty, the call
    resolves with the completed block, which is the last block of the
    chain. *)
Theorem addBlock_rolls_back self block now :
  let errorLog := errorLog_read (validateChain (pushed self block now)) in
  (errorLog <> []
   /\ _addBlock self block now = (Rejected (VArr errorLog), self))
  \/ (errorLog = []
      /\ _addBlock self block now
         = (Resolved (completed self block now), pushed self block now)
      /\ last (chain (pushed self block now)) = Some (completed self block now)).
Proof.
  cbv zeta. rewrite _addBlock_unfold.
  destruct (errorLog_read (validateChain (pushed self block now))) as [|e log] eqn:E.
  - right. split; [reflexivity|]. split; [reflexivity|].
    unfold pushed. cbn [chain]. apply last_snoc.
  - left. split; [discriminate|reflexivity].
Qed.

(** C3. The block that a successful [_addBlock] returns is the last block
    of the chain, its [validate()] resolves with [true], and the hash it
    stores is the hash of the block serialized with [hash] set to [null]. *)
Theorem appended_block_validates self block now (stored : Block) (self' : Blockchain) :
  _addBlock self block now = (Resolved stored, self') ->
  last (chain self') = Some stored
  /\ fst (BlockClass.validate stored) = Resolved true
  /\ BlockClass.hash stored
     = Some (SHA256 (BlockClass.stringify (BlockClass.set_hash None stored))).
Proof.
  intros Hadd.
  destruct (_addBlock_result self block now) as [[log Hfail]|[Hok Hlog]].
  - rewrite Hfail in Hadd. discriminate.
  - rewrite Hok in Hadd. injection Hadd as <- <-.
    rewrite errorLog_read_pushed in Hlog.
    apply app_eq_nil in Hlog as [_ Hlog]. apply app_eq_nil in Hlog as [_ Hlog].
    apply invalid_errors_one in Hlog.
    split; [unfold pushed; cbn [chain]; apply last_snoc|].
    split; [exact Hlog|].
    apply validate_true_hash. exact Hlog.
Qed.

End AppendFacts.

(* ------------------------------------------------------------------------- *)
(** ** Reachable chains *)

Section Reachability.

Variable verify : Verifier.
Implicit Types (self : Blockchain) (block : Block) (now : N).

Lemma new_Blockchain_spec now :
  new_Blockchain now = pushed empty (BlockClass.new genesis_data) now.
Proof.
  unfold new_Blockchain, initializeChain. cbn [height Z.eqb].
  change {| chain := []; height := -1 |} with empty.
  rewrite _addBlock_new; reflexivity.
Qed.

(** A call leaves the chain as it was or pushes one block that passed
    validation. *)
Lemma step_cases self self' :
  step verify self self' ->
  self' = self
  \/ exists block now,
       self' = pushed self block now
       /\ errorLog_read (validateChain (pushed self block now)) = [].
Proof.
  intros Hstep.
  destruct Hstep as [self now|self block now|self a m sg st now now'|self].
  - unfold initializeChain. destruct (height self =? -1); [|left; reflexivity].
    destruct (_addBlock_result self (BlockClass.new genesis_data) now)
      as [[log ->]|[-> Hok]]; [left; reflexivity|right; eauto].
  - destruct (_addBlock_result self block now)
      as [[log ->]|[-> Hok]]; [left; reflexivity|right; eauto].
  - unfold submitStar. destruct (verify m a sg) as [verified|error]; [|left; reflexivity].
    destruct (less _ 0); [left; reflexivity|].
    destruct (at_least _ 300); [left; reflexivity|].
    destruct (negb verified); [left; reflexivity|].
    destruct (_addBlock_result self (BlockClass.new (star_data a st)) now')
      as [[log ->]|[-> Hok]]; [left; reflexivity|right; eauto].
  - left. rewrite chain_after_validateChain. destruct self; reflexivity.
Qed.

(** Every reachable chain validates. *)
Lemma reachable_validates self :
  reachable verify self -> errorLog_read (validateChain self) = [].
Proof.
  induction 1 as [now|self self' Hreach IH Hstep].
  - rewrite new_Blockchain_spec. apply pushed_validates; reflexivity.
  - destruct (step_cases self self' Hstep) as [->|(block & now & -> & Hok)];
      assumption.
Qed.

Lemma genesis_body_decodes :
  option_map JSON_parse (hex2ascii (BlockClass.encode genesis_data))
  = Some (Parsed genesis_data).
Proof. vm_compute. reflexivity. Qed.

Lemma invariant_new now : chain_invariant (new_Blockchain now).
Proof.
  rewrite new_Blockchain_spec.
  destruct (completed_fields empty (BlockClass.new genesis_data) now) as (Hh & Hb & Hp).
  unfold chain_invariant, pushed. cbn [chain height empty app length].
  split; [|split; [|split]].
  - intros [|i] b Hi; [|discriminate]. cbn in Hi. injection Hi as <-. exact Hh.
  - intros [|i] b p Hi; discriminate.
  - eexists. split; [reflexivity|]. split; [exact Hh|]. split; [exact Hp|].
    rewrite Hb. exact genesis_body_decodes.
  - reflexivity.
Qed.

Lemma invariant_pushed self block now :
  chain_invariant self -> chain_invariant (pushed self block now).
Proof.
  intros (Hheights & Hlinks & (g & Hg & Hg0 & Hgp & Hgb) & Hheight).
  destruct (completed_fields self block now) as (Hh & Hb & Hp).
  unfold chain_invariant, pushed. cbn [chain height].
  split; [|split; [|split]].
  - intros i b Hi. apply lookup_app_Some in Hi as [Hi|[Hlen Hi]].
    + eauto.
    + apply list_lookup_singleton_Some in Hi as [Hi <-]. lia.
  - intros i b p Hi Hpi. apply lookup_app_Some in Hi as [Hi|[Hlen Hi]].
    + rewrite lookup_app_l in Hpi by (apply lookup_lt_Some in Hi; lia). eauto.
    + apply list_lookup_singleton_Some in Hi as [Hi <-].
      rewrite lookup_app_l in Hpi by lia.
      rewrite Hp, last_lookup.
      replace (Nat.pred (length (chain self))) with i by lia.
      rewrite Hpi. reflexivity.
  - exists g. rewrite lookup_app_l by (apply lookup_lt_Some in Hg; lia). auto.
  - rewrite length_app. cbn [length]. lia.
Qed.

(** In a reachable chain [getBData] refuses the payload of the first
    block. *)
Lemma genesis_payload_refused self :
  reachable verify self ->
  exists g : Block,
    chain self !! 0%nat = Some g
    /\ BlockClass.getBData g = Some (Rejected GenesisBlockError).
Proof.
  intros Hreach.
  assert (Hinv : chain_invariant self).
  { induction Hreach as [now|self self' Hreach IH Hstep]; [apply invariant_new|].
    destruct (step_cases self self' Hstep) as [->|(block & now & -> & Hok)];
      [assumption|apply invariant_pushed; assumption]. }
  destruct Hinv as (_ & _ & (g & Hg & Hheight & _ & Hbody) & _).
  exists g. split; [exact Hg|]. unfold BlockClass.getBData.
  destruct (hex2ascii (BlockClass.body g)) as [decoded|]; [|discriminate].
  cbn [option_map] in Hbody. injection Hbody as ->. rewrite Hheight. reflexivity.
Qed.

(** C2. In every chain that the operations reach, the height of each block
    is its index, each block after the first names the hash of the block
    in front of it, the first block has height 0, no previous hash and the
    payload [{data: 'Genesis Block'}], and [height] is the length of the
    chain minus one. *)
Theorem reachable_chain_invariant self :
  reachable verify self -> chain_invariant self.
Proof.
  induction 1 as [now|self self' Hreach IH Hstep].
  - apply invariant_new.
  - destruct (step_cases self self' Hstep) as [->|(block & now & -> & Hok)].
    + assumption.
    + apply invariant_pushed. assumption.
Qed.

End Reachability.

(* ------------------------------------------------------------------------- *)
(** ** The sample chains *)

Lemma chain2_reachable : reachable sample_verify chain2.
Proof.
  apply (reachable_step _ chain1); [apply (reachable_step _ chain0)|].
  - apply reachable_new.
  - apply step_submitStar.
  - apply step_submitStar.
Qed.

Lemma reachable_chain_invariant_witness :
  reachable sample_verify chain2 /\ chain_invariant chain2.
Proof.
  split.
  - exact chain2_reachable.
  - exact (reachable_chain_invariant sample_verify chain2 chain2_reachable).
Defined.

Lemma appended_block_validates_witness :
  _addBlock chain0 (BlockClass.new (star_data sample_address plain_star)) 1700000020001
  = (Resolved (completed chain0 (BlockClass.new (star_data sample_address plain_star))
                 1700000020001),
     chain1)
  /\ fst (BlockClass.validate
            (completed chain0 (BlockClass.new (star_data sample_address plain_star))
               1700000020001))
     = Resolved true.
Proof.
  assert (H : _addBlock chain0 (BlockClass.new (star_data sample_address plain_star))
                1700000020001
              = (Resolved (completed chain0 (BlockClass.new (star_data sample_address plain_star))
                             1700000020001),
                 chain1)) by (vm_compute; reflexivity).
  split.
  - exact H.
  - exact (proj1 (proj2 (appended_block_validates _ _ _ _ _ H))).
Defined.


(* ------------------------------------------------------------------------- *)
(** ** Submitting a star *)

Section SubmitStarFacts.

Variable verify : Verifier.
Implicit Types (self : Blockchain) (address message signature : string) (star : json).

(** C9. [submitStar] calls [bitcoinMessage.verify] before it looks at the
    elapsed time: whenever that call throws, whatever the time stamp of the
    message, [submitStar] ends with that exception, which leaves the
    executor uncaught, and rejects with neither ExpiredMessageError nor
    FutureMessageError. *)
Theorem submitStar_verifies_first self address message signature star (now now' : N)
    (error : Value) :
  verify message address signature = Throws error ->
  submitStar verify self address message signature star now now' = (Uncaught error, self)
  /\ fst (submitStar verify self address message signature star now now')
     <> Rejected ExpiredMessageError
  /\ fst (submitStar verify self address message signature star now now')
     <> Rejected FutureMessageError.
Proof.
  intros Hthrows. unfold submitStar. rewrite Hthrows.
  split; [reflexivity|]. split; discriminate.
Qed.

Lemma reachable_height self : reachable verify self -> 0 <= height self.
Proof.
  induction 1 as [now|self self' Hreach IH Hstep].
  - rewrite new_Blockchain_spec. cbn. lia.
  - destruct (step_cases verify self self' Hstep) as [->|(block & now & -> & Hok)].
    + assumption.
    + unfold pushed. cbn [height]. lia.
Qed.

(** The checks in the order the code makes them, once
    [bitcoinMessage.verify] has returned: [submitStar] rejects with
    FutureMessageError if the time stamp of the message is later than the
    clock; otherwise with ExpiredMessageError if 300 seconds or more have
    passed; otherwise with SignatureVerificationError if the signature was
    not verified.  Otherwise, on a chain that the operations reach, it
    pushes a block made from [{owner: address, star: star}] and resolves
    with it; the body of the block is the encoding of that payload, and
    [getBData] gives the payload back when it is plain. *)
Lemma submitStar_checks self address message signature star (now now' : N)
    (verifiedMessage : bool) :
  verify message address signature = Returns verifiedMessage ->
  let timeElapsed := elapsed message now in
  let block := completed self (BlockClass.new (star_data address star)) now' in
  let result := submitStar verify self address message signature star now now' in
  (less timeElapsed 0 = true -> result = (Rejected FutureMessageError, self))
  /\ (less timeElapsed 0 = false -> at_least timeElapsed 300 = true ->
      result = (Rejected ExpiredMessageError, self))
  /\ (less timeElapsed 0 = false -> at_least timeElapsed 300 = false ->
      verifiedMessage = false ->
      result = (Rejected SignatureVerificationError, self))
  /\ (less timeElapsed 0 = false -> at_least timeElapsed 300 = false ->
      verifiedMessage = true ->
      reachable verify self ->
      result = (Resolved block, pushed self (BlockClass.new (star_data address star)) now')
      /\ last (chain (pushed self (BlockClass.new (star_data address star)) now'))
         = Some block
      /\ BlockClass.body block = BlockClass.encode (star_data address star)
      /\ (plain_json (star_data address star) = true ->
          BlockClass.getBData block = Some (Resolved (star_data address star)))).
Proof.
  intros Hverify. cbv zeta. unfold submitStar. fold (elapsed message now).
  rewrite Hverify.
  split; [|split; [|split]].
  - intros ->. reflexivity.
  - intros -> ->. reflexivity.
  - intros -> -> ->. reflexivity.
  - intros -> -> -> Hreach. cbn [negb].
    rewrite (_addBlock_new self (BlockClass.new (star_data address star)) now'
               (reachable_validates verify self Hreach) eq_refl).
    destruct (completed_fields self (BlockClass.new (star_data address star)) now')
      as (Hheight & Hbody & _).
    split; [reflexivity|]. split; [unfold pushed; cbn [chain]; apply last_snoc|].
    split; [exact Hbody|].
    intros Hplain. apply (getBData_encode _ _ Hplain Hbody).
    rewrite Hheight. pose proof (reachable_height self Hreach). lia.
Qed.

End SubmitStarFacts.

Lemma submitStar_verifies_first_witness :
  sample_verify expired_message sample_address "" = Throws (VError "Invalid signature length")
  /\ at_least (elapsed expired_message 1700000020000) 300 = true
  /\ submitStar sample_verify chain0 sample_address expired_message "" plain_star
       1700000020000 1700000020001
     = (Uncaught (VError "Invalid signature length"), chain0).
Proof.
  split; [reflexivity|]. split; [vm_compute; reflexivity|].
  exact (proj1 (submitStar_verifies_first sample_verify chain0 sample_address
                  expired_message "" plain_star 1700000020000 1700000020001
                  (VError "Invalid signature length") eq_refl)).
Defined.

(** C6. The time stamp of [future_message] is later than the clock, and
    [submitStar] does not fail with FutureMessageError: it calls
    [bitcoinMessage.verify] before it looks at the time, verifying the
    empty signature throws inside the async executor, and the promise is
    neither rejected nor resolved. *)
Theorem submitStar_future_not_rejected :
  less (elapsed future_message 1700000020000) 0 = true
  /\ submitStar sample_verify chain0 sample_address future_message "" plain_star
       1700000020000 1700000020001
     = (Uncaught (VError "Invalid signature length"), chain0)
  /\ fst (submitStar sample_verify chain0 sample_address future_message "" plain_star
            1700000020000 1700000020001)
     <> Rejected FutureMessageError.
Proof.
  split; [vm_compute; reflexivity|]. split; [reflexivity|]. discriminate.
Qed.

Lemma chain0_reachable : reachable sample_verify chain0.
Proof. apply reachable_new. Qed.

Lemma submitStar_checks_witness :
  sample_verify sample_message sample_address sample_signature = Returns true
  /\ less (elapsed sample_message 1700000020000) 0 = false
  /\ at_least (elapsed sample_message 1700000020000) 300 = false
  /\ plain_json (star_data sample_address plain_star) = true
  /\ submitStar sample_verify chain0 sample_address sample_message sample_signature
       plain_star 1700000020000 1700000020001
     = (Resolved (completed chain0 (BlockClass.new (star_data sample_address plain_star))
                    1700000020001),
        pushed chain0 (BlockClass.new (star_data sample_address plain_star)) 1700000020001)
  /\ BlockClass.getBData
       (completed chain0 (BlockClass.new (star_data sample_address plain_star)) 1700000020001)
     = Some (Resolved (star_data sample_address plain_star)).
Proof.
  assert (Hverify : sample_verify sample_message sample_address sample_signature
                    = Returns true) by (vm_compute; reflexivity).
  assert (Hless : less (elapsed sample_message 1700000020000) 0 = false)
    by (vm_compute; reflexivity).
  assert (Hleast : at_least (elapsed sample_message 1700000020000) 300 = false)
    by (vm_compute; reflexivity).
  assert (Hplain : plain_json (star_data sample_address plain_star) = true)
    by (vm_compute; reflexivity).
  pose proof (proj2 (proj2 (proj2
    (submitStar_checks sample_verify chain0 sample_address sample_message sample_signature
       plain_star 1700000020000 1700000020001 true Hverify)))
    Hless Hleast eq_refl chain0_reachable) as (Hresult & _ & _ & Hdata).
  split; [exact Hverify|]. split; [exact Hless|]. split; [exact Hleast|].
  split; [exact Hplain|]. split; [exact Hresult|]. exact (Hdata Hplain).
Defined.

(* ------------------------------------------------------------------------- *)
(** ** Reading the payload of a block *)

Section GetBDataFacts.

Implicit Types (self : Block).

(** C10. [getBData] parses the decoded body before it looks at the height.
    For a block of height 0 whose decoded body is not JSON, the call is
    rejected with the SyntaxError of [JSON.parse] and not with the genesis
    error; and whenever the call is rejected with the genesis error, the
    body did parse. *)
Theorem getBData_parses_first self (decodedData : string) :
  BlockClass.height self = 0 ->
  hex2ascii (BlockClass.body self) = Some decodedData ->
  (JSON_parse decodedData = ThrowsSyntaxError ->
   BlockClass.getBData self = Some (Rejected VSyntaxError)
   /\ BlockClass.getBData self <> Some (Rejected GenesisBlockError))
  /\ (BlockClass.getBData self = Some (Rejected GenesisBlockError) ->
      exists data : json, JSON_parse decodedData = Parsed data).
Proof.
  intros Hheight Hdecoded. unfold BlockClass.getBData. rewrite Hdecoded, Hheight.
  cbn [Z.eqb]. split.
  - intros ->. split; [reflexivity|discriminate].
  - destruct (JSON_parse decodedData) as [data| |]; [eauto|discriminate..].
Qed.

End GetBDataFacts.

Lemma getBData_parses_first_witness :
  BlockClass.height broken_genesis = 0
  /\ hex2ascii (BlockClass.body broken_genesis) = Some "{"
  /\ JSON_parse "{" = ThrowsSyntaxError
  /\ BlockClass.getBData broken_genesis = Some (Rejected VSyntaxError).
Proof.
  assert (Hheight : BlockClass.height broken_genesis = 0) by (vm_compute; reflexivity).
  assert (Hbody : hex2ascii (BlockClass.body broken_genesis) = Some "{")
    by (vm_compute; reflexivity).
  assert (Hparse : JSON_parse "{" = ThrowsSyntaxError) by (vm_compute; reflexivity).
  split; [exact Hheight|]. split; [exact Hbody|]. split; [exact Hparse|].
  exact (proj1 (proj1 (getBData_parses_first broken_genesis "{" Hheight Hbody) Hparse)).
Defined.

(* ------------------------------------------------------------------------- *)
(** ** Where the code and the specification part *)

Lemma filter_entries_all {A : Type} (test : A -> nat -> Tested) (l : list A) :
  forall index : nat,
    (forall (x : A) (i : nat), (index <= i)%nat -> ToBoolean (test x i) = true) ->
    filter_entries test index l = l.
Proof.
  induction l as [|x l IH]; intros index Htrue; cbn [filter_entries]; [reflexivity|].
  rewrite (Htrue x index) by lia. f_equal. apply IH.
  intros y i Hi. apply Htrue. lia.
Qed.

(** Whatever the address, [getStarsByWalletAddress] resolves with the blocks
    after the first: blocks, not stars, and of every owner. *)
Lemma getStarsByWalletAddress_all (self : Blockchain) (address : string) :
  getStarsByWalletAddress self address = Resolved (tail (chain self)).
Proof.
  unfold getStarsByWalletAddress. destruct (chain self) as [|g rest]; [reflexivity|].
  cbn [filter_entries Nat.ltb Nat.leb ToBoolean tail]. f_equal.
  apply filter_entries_all. intros x i Hi.
  destruct i as [|i]; [lia|reflexivity].
Qed.

(** C5. On [chain2], whose two stars belong to [sample_address], a query
    for [other_address] resolves with both blocks, where the specification
    asks for the empty list of stars. *)
Theorem getStarsByWalletAddress_ignores_owner :
  getStarsByWalletAddress chain2 other_address = Resolved (tail (chain chain2))
  /\ length (tail (chain chain2)) = 2%nat
  /\ spec_getStarsByWalletAddress chain2 other_address = Some (Resolved []).
Proof.
  split; [apply getStarsByWalletAddress_all|]. split; vm_compute; reflexivity.
Qed.

(** C8. The block of [chain2] that was made from [sample_star] does not
    give [sample_star] back: [getBData] resolves with the declination's
    degree sign turned into two characters. *)
Theorem getBData_garbles_degree_sign :
  chain chain2 !! 2%nat = Some star_block
  /\ BlockClass.body star_block = BlockClass.encode (star_data sample_address sample_star)
  /\ BlockClass.getBData star_block = Some (Resolved (star_data sample_address garbled_star))
  /\ star_data sample_address garbled_star <> star_data sample_address sample_star.
Proof.
  split; [vm_compute; reflexivity|]. split; [vm_compute; reflexivity|].
  split; [vm_compute; reflexivity|]. vm_compute. discriminate.
Qed.

(* ------------------------------------------------------------------------- *)
(** ** Looking a block up *)

Section LookupFacts.

Variable verify : Verifier.
Implicit Types (self : Blockchain) (b p : Block).

Lemma reachable_invariant self : reachable verify self -> chain_invariant self.
Proof.
  induction 1 as [now|self self' Hreach IH Hstep]; [apply invariant_new|].
  destruct (step_cases verify self self' Hstep) as [->|(block & now & -> & Hok)];
    [assumption|apply invariant_pushed; assumption].
Qed.

(** In a list whose blocks carry the heights [offset], [offset + 1], ...,
    the filter of [getBlockByHeight] keeps the block at index
    [h - offset] and nothing else. *)
Lemma filter_by_height (h : Z) (l : list Block) :
  forall offset : Z,
    (forall (i : nat) b, l !! i = Some b -> BlockClass.height b = offset + Z.of_nat i) ->
    List.filter (fun p => BlockClass.height p =? h) l
    = match (if offset <=? h then l !! Z.to_nat (h - offset) else None) with
      | Some b => [b]
      | None => []
      end.
Proof.
  induction l as [|x l IH]; intros offset Hheights.
  - cbn [List.filter]. destruct (offset <=? h); reflexivity.
  - cbn [List.filter].
    assert (Hx : BlockClass.height x = offset) by (rewrite (Hheights 0%nat x eq_refl); lia).
    rewrite (IH (offset + 1)).
    2:{ intros i b Hi. rewrite (Hheights (S i) b Hi). lia. }
    rewrite Hx. destruct (offset =? h) eqn:Heq.
    + apply Z.eqb_eq in Heq. subst h.
      replace (offset + 1 <=? offset) with false by (symmetry; apply Z.leb_gt; lia).
      rewrite Z.leb_refl, Z.sub_diag. reflexivity.
    + apply Z.eqb_neq in Heq. destruct (offset <=? h) eqn:Hle.
      * apply Z.leb_le in Hle.
        replace (offset + 1 <=? h) with true by (symmetry; apply Z.leb_le; lia).
        replace (Z.to_nat (h - offset)) with (S (Z.to_nat (h - (offset + 1)))) by lia.
        reflexivity.
      * apply Z.leb_gt in Hle.
        replace (offset + 1 <=? h) with false by (symmetry; apply Z.leb_gt; lia).
        reflexivity.
Qed.

Lemma getBlockByHeight_invariant self (h : Z) :
  chain_invariant self ->
  getBlockByHeight self h = Resolved (if 0 <=? h then chain self !! Z.to_nat h else None).
Proof.
  intros (Hheights & _). unfold getBlockByHeight.
  rewrite (filter_by_height h (chain self) 0).
  2:{ intros i b Hi. rewrite (Hheights i b Hi). lia. }
  rewrite Z.sub_0_r. destruct (0 <=? h); [|reflexivity].
  destruct (chain self !! Z.to_nat h); reflexivity.
Qed.

(** X1. On a chain that the operations reach, [getBlockByHeight(h)]
    resolves with the block at index [h], and with [null] when [h] is
    negative or beyond the last block: it finds a block exactly for the
    heights from 0 to the height of the chain. *)
Theorem getBlockByHeight_by_index self (h : Z) :
  reachable verify self ->
  getBlockByHeight self h = Resolved (if 0 <=? h then chain self !! Z.to_nat h else None)
  /\ (0 <= h <= height self <-> exists b, getBlockByHeight self h = Resolved (Some b)).
Proof.
  intros Hreach. pose proof (reachable_invariant self Hreach) as Hinv.
  rewrite (getBlockByHeight_invariant self h Hinv). split; [reflexivity|].
  destruct Hinv as (_ & _ & _ & Hheight). split.
  - intros [Hlo Hhi]. apply Z.leb_le in Hlo as Hle. rewrite Hle.
    destruct (lookup_lt_is_Some_2 (chain self) (Z.to_nat h)) as [b Hb]; [lia|].
    exists b. rewrite Hb. reflexivity.
  - intros [b Hb]. destruct (0 <=? h) eqn:Hle; [|discriminate].
    apply Z.leb_le in Hle. injection Hb as Hb. apply lookup_lt_Some in Hb. lia.
Qed.

Lemma filter_first {A : Type} (f : A -> bool) (l : list A) :
  List.filter f l !! 0%nat = find f l.
Proof.
  induction l as [|x l IH]; [reflexivity|]. cbn [List.filter find].
  destruct (f x); [reflexivity|exact IH].
Qed.

Lemma find_first {A : Type} (f : A -> bool) (l : list A) (x : A) :
  find f l = Some x
  <-> exists i : nat,
        l !! i = Some x /\ f x = true
        /\ forall (j : nat) (y : A), (j < i)%nat -> l !! j = Some y -> f y = false.
Proof.
  induction l as [|a l IH]; cbn [find].
  - split; [discriminate|]. intros (i & Hi & _). discriminate.
  - destruct (f a) eqn:Hfa.
    + split.
      * intros [= <-]. exists 0%nat. split; [reflexivity|]. split; [exact Hfa|]. lia.
      * intros (i & Hi & Hfx & Hfirst). destruct i as [|i].
        -- cbn in Hi. congruence.
        -- specialize (Hfirst 0%nat a ltac:(lia) eq_refl). congruence.
    + rewrite IH. split.
      * intros (i & Hi & Hfx & Hfirst). exists (S i). split; [exact Hi|]. split; [exact Hfx|].
        intros [|j] y Hj Hy; [cbn in Hy; congruence|]. apply (Hfirst j y); [lia|exact Hy].
      * intros (i & Hi & Hfx & Hfirst). destruct i as [|i].
        -- cbn in Hi. congruence.
        -- exists i. split; [exact Hi|]. split; [exact Hfx|].
           intros j y Hj Hy. apply (Hfirst (S j) y); [lia|exact Hy].
Qed.

Lemma getBlockByHash_find self (hash : string) :
  getBlockByHash self hash
  = Resolved (find (fun block => same_text (BlockClass.hash block) (Some hash)) (chain self)).
Proof.
  unfold getBlockByHash. rewrite <- filter_first.
  destruct (List.filter _ (chain self)); reflexivity.
Qed.

(** X2. [getBlockByHash(hash)] resolves with the first block of the chain
    whose stored hash is [hash], and with [null] exactly when no block of
    the chain stores that hash. *)
Theorem getBlockByHash_first_match self (hash : string) :
  (forall b,
     getBlockByHash self hash = Resolved (Some b)
     <-> exists i : nat,
           chain self !! i = Some b /\ BlockClass.hash b = Some hash
           /\ forall (j : nat) p, (j < i)%nat -> chain self !! j = Some p ->
                                  BlockClass.hash p <> Some hash)
  /\ (getBlockByHash self hash = Resolved None
      <-> forall (i : nat) b, chain self !! i = Some b -> BlockClass.hash b <> Some hash).
Proof.
  rewrite getBlockByHash_find. split.
  - intros b. split.
    + intros [= Hfind]. apply find_first in Hfind as (i & Hi & Hb & Hfirst).
      exists i. split; [exact Hi|]. split; [apply same_text_true, Hb|].
      intros j p Hj Hp Heq. apply same_text_true in Heq.
      rewrite (Hfirst j p Hj Hp) in Heq. discriminate.
    + intros (i & Hi & Hb & Hfirst). f_equal. apply find_first.
      exists i. split; [exact Hi|]. split; [apply same_text_true, Hb|].
      intros j p Hj Hp. destruct (same_text _ _) eqn:E; [|reflexivity].
      apply same_text_true in E. destruct (Hfirst j p Hj Hp E).
  - split.
    + intros [= Hfind] i b Hi Heq.
      apply same_text_true in Heq. rewrite (find_none _ _ Hfind b) in Heq; [discriminate|].
      apply list_elem_of_In. eapply list_elem_of_lookup_2. exact Hi.
    + intros Hnone. f_equal.
      destruct (find _ (chain self)) as [b|] eqn:Hfind; [|reflexivity].
      apply find_first in Hfind as (i & Hi & Hb & _).
      apply same_text_true in Hb. destruct (Hnone i b Hi Hb).
Qed.

End LookupFacts.

Lemma getBlockByHeight_by_index_witness :
  reachable sample_verify chain2
  /\ getBlockByHeight chain2 2 = Resolved (Some star_block).
Proof.
  split; [exact chain2_reachable|].
  rewrite (proj1 (getBlockByHeight_by_index sample_verify chain2 2 chain2_reachable)).
  vm_compute. reflexivity.
Defined.

(* ------------------------------------------------------------------------- *)
(** ** What validation reports, and what follows for the chain *)

Section LogFacts.

Variable verify : Verifier.
Implicit Types (self : Blockchain) (b p block : Block) (l : list Block) (e : Value).

Lemma same_text_false (x y : option string) : same_text x y = false <-> x <> y.
Proof.
  rewrite <- same_text_true. destruct (same_text x y); split; congruence.
Qed.

Lemma invalid_errors_sound l e :
  e ∈ invalid_errors l ->
  exists (i : nat) b,
    l !! i = Some b
    /\ fst (BlockClass.validate b) = Resolved false
    /\ e = VStr ("Block " ++ BlockClass.stringify b ++ " is not valid")%string.
Proof.
  unfold invalid_errors. intros He.
  apply list_elem_of_In, in_flat_map in He as (b & Hb & He).
  apply list_elem_of_In, list_elem_of_lookup_1 in Hb as [i Hi].
  exists i, b. split; [exact Hi|].
  unfold reaction_of in He. rewrite validate_restores, validate_resolves in He.
  rewrite validate_resolves. destruct (same_text _ _); cbn in He; [destruct He|].
  destruct He as [<-|[]]. split; reflexivity.
Qed.

Lemma link_errors_sound l :
  forall (previous : option Block) e,
    e ∈ link_errors previous l ->
    (exists p b,
        previous = Some p /\ l !! 0%nat = Some b
        /\ BlockClass.previousBlockHash b <> BlockClass.hash p /\ e = link_message p b)
    \/ (exists (i : nat) b p,
          l !! S i = Some b /\ l !! i = Some p
          /\ BlockClass.previousBlockHash b <> BlockClass.hash p /\ e = link_message p b).
Proof.
  induction l as [|x l IH]; intros previous e He; cbn [link_errors] in He.
  - apply elem_of_nil in He. destruct He.
  - assert (Hrest : e ∈ link_errors (Some x) l ->
                    exists (i : nat) b p,
                      (x :: l) !! S i = Some b /\ (x :: l) !! i = Some p
                      /\ BlockClass.previousBlockHash b <> BlockClass.hash p
                      /\ e = link_message p b).
    { intros H.
      destruct (IH _ _ H) as [(p & b & [= <-] & Hb & Hneq & ->)|(i & b & p & Hb & Hp & Hneq & ->)].
      - exists 0%nat, b, x. auto.
      - exists (S i), b, p. auto. }
    destruct previous as [p|]; [|right; apply Hrest, He].
    destruct (same_text _ _) eqn:E; cbn [negb] in He; [right; apply Hrest, He|].
    apply elem_of_cons in He as [->|He]; [|right; apply Hrest, He].
    left. exists p, x. apply same_text_false in E. auto.
Qed.

(** X3. The entries of [errorLog].  When [validateChain] resolves its
    promise, the array holds exactly the messages for the places where a
    block does not name the hash of the block in front of it.  When a
    callback of the caller reads the array, it holds those messages and one
    entry for each block whose [validate()] resolved with [false], and
    nothing else. *)
Theorem validateChain_log_entries self e :
  let broken_link :=
    exists (i : nat) b p,
      chain self !! S i = Some b /\ chain self !! i = Some p
      /\ BlockClass.previousBlockHash b <> BlockClass.hash p
      /\ e = link_message p b in
  let invalid_block :=
    exists (i : nat) b,
      chain self !! i = Some b
      /\ fst (BlockClass.validate b) = Resolved false
      /\ e = VStr ("Block " ++ BlockClass.stringify b ++ " is not valid")%string in
  (e ∈ errorLog_resolved (validateChain self) <-> broken_link)
  /\ (e ∈ errorLog_read (validateChain self) <-> broken_link \/ invalid_block).
Proof.
  cbv zeta. rewrite errorLog_read_spec, validateChain_spec. cbn [errorLog_resolved].
  assert (Hlinks : e ∈ link_errors None (chain self)
                   <-> exists (i : nat) b p,
                         chain self !! S i = Some b /\ chain self !! i = Some p
                         /\ BlockClass.previousBlockHash b <> BlockClass.hash p
                         /\ e = link_message p b).
  { split.
    - intros He. destruct (link_errors_sound _ _ _ He) as [(p & b & [=] & _)|H]; exact H.
    - intros (i & b & p & Hb & Hp & Hneq & ->).
      exact (link_errors_elem (chain self) None i b p Hb Hp Hneq). }
  split; [exact Hlinks|]. rewrite elem_of_app, Hlinks. split.
  - intros [H|H]; [left; exact H|right; apply invalid_errors_sound, H].
  - intros [H|(i & b & Hb & Hfalse & ->)]; [left; exact H|right].
    exact (invalid_errors_elem (chain self) i b Hb Hfalse).
Qed.

Lemma valid_when_log_empty self :
  errorLog_read (validateChain self) = [] ->
  forall (i : nat) b, chain self !! i = Some b -> fst (BlockClass.validate b) = Resolved true.
Proof.
  intros Hread i b Hb. rewrite validate_resolves.
  destruct (same_text _ _) eqn:E; [reflexivity|].
  assert (Hin : VStr ("Block " ++ BlockClass.stringify b ++ " is not valid")%string
                  ∈ errorLog_read (validateChain self)).
  { rewrite errorLog_read_spec. apply elem_of_app. right.
    apply (invalid_errors_elem (chain self) i b Hb).
    rewrite validate_resolves, E. reflexivity. }
  rewrite Hread in Hin. apply elem_of_nil in Hin. destruct Hin.
Qed.

(** X4. A chain that the operations reach passes validation:
    [validateChain] logs no error, neither when it resolves its promise nor
    when the caller reads the array; it leaves the chain as it was; and
    [validate()] resolves with [true] on every block. *)
Theorem reachable_chain_validates self :
  reachable verify self ->
  errorLog_resolved (validateChain self) = []
  /\ errorLog_read (validateChain self) = []
  /\ chain_after (validateChain self) = chain self
  /\ forall (i : nat) b, chain self !! i = Some b ->
                         fst (BlockClass.validate b) = Resolved true.
Proof.
  intros Hreach. pose proof (reachable_validates verify self Hreach) as Hread.
  split; [|split; [exact Hread|split; [apply chain_after_validateChain|]]].
  - rewrite errorLog_read_spec in Hread. apply app_eq_nil in Hread as [Hlinks _].
    rewrite validateChain_spec. exact Hlinks.
  - exact (valid_when_log_empty self Hread).
Qed.

Lemma set_hash_twice (h : option string) b :
  BlockClass.set_hash None (BlockClass.set_hash h b) = BlockClass.set_hash None b.
Proof. reflexivity. Qed.

(** X5. A changed hash is reported.  When a block that passes
    [validate()] has its stored hash replaced by any other value, [null]
    included, a caller of [validateChain] reads an entry that names the
    block as not valid. *)
Theorem validateChain_detects_changed_hash self (i : nat) b (h : option string) :
  chain self !! i = Some b ->
  fst (BlockClass.validate b) = Resolved true ->
  h <> BlockClass.hash b ->
  VStr ("Block " ++ BlockClass.stringify (BlockClass.set_hash h b) ++ " is not valid")%string
    ∈ errorLog_read
        (validateChain {| chain := <[i := BlockClass.set_hash h b]> (chain self);
                          height := height self |}).
Proof.
  intros Hb Hvalid Hneq. rewrite errorLog_read_spec. cbn [chain]. apply elem_of_app. right.
  apply (invalid_errors_elem _ i).
  - apply list_lookup_insert_eq. apply lookup_lt_Some in Hb. exact Hb.
  - rewrite validate_resolves, set_hash_twice. f_equal. apply same_text_false.
    apply validate_true_hash in Hvalid. rewrite <- Hvalid. exact Hneq.
Qed.

(** X6. A block that has a successor cannot get another hash unnoticed.
    When the block at index [i] is replaced by any block whose stored hash
    differs, be it one that passes [validate()], the log of
    [validateChain] holds, already when the promise is resolved, the
    message that the block at index [i + 1] does not name that hash. *)
Theorem validateChain_reports_broken_link self (i : nat) b (next b' : Block) :
  chain self !! i = Some b ->
  chain self !! S i = Some next ->
  BlockClass.previousBlockHash next = BlockClass.hash b ->
  BlockClass.hash b' <> BlockClass.hash b ->
  link_message b' next
    ∈ errorLog_resolved
        (validateChain {| chain := <[i := b']> (chain self); height := height self |}).
Proof.
  intros Hb Hnext Hlink Hneq. rewrite validateChain_spec. cbn [errorLog_resolved chain].
  apply (link_errors_elem _ None i next b').
  - rewrite list_lookup_insert_ne by lia. exact Hnext.
  - apply list_lookup_insert_eq. apply lookup_lt_Some in Hb. exact Hb.
  - rewrite Hlink. congruence.
Qed.

(** X7. The last block has no successor to vouch for it.  On a chain that
    the operations reach, the last block can be replaced by any block that
    names the same previous hash and passes [validate()], whatever its body,
    time or height: [validateChain] logs no error. *)
Theorem validateChain_misses_last_block self l b (b' : Block) :
  reachable verify self ->
  chain self = l ++ [b] ->
  BlockClass.previousBlockHash b' = BlockClass.previousBlockHash b ->
  fst (BlockClass.validate b') = Resolved true ->
  errorLog_resolved (validateChain {| chain := l ++ [b']; height := height self |}) = []
  /\ errorLog_read (validateChain {| chain := l ++ [b']; height := height self |}) = [].
Proof.
  intros Hreach Hchain Hprevious Hvalid.
  pose proof (reachable_validates verify self Hreach) as Hread.
  rewrite errorLog_read_spec, Hchain, link_errors_app, invalid_errors_app in Hread.
  apply app_eq_nil in Hread as [Hlinks Hinvalid].
  apply app_eq_nil in Hlinks as [Hlinks Hlast]. apply app_eq_nil in Hinvalid as [Hinvalid _].
  assert (Hlast' : link_errors (match last l with Some p => Some p | None => None end) [b'] = []).
  { revert Hlast. cbn [link_errors]. rewrite Hprevious.
    destruct (last l) as [p|]; [|reflexivity]. destruct (negb _); [discriminate|reflexivity]. }
  rewrite errorLog_read_spec, validateChain_spec. cbn [errorLog_resolved chain].
  rewrite link_errors_app, invalid_errors_app, Hlinks, Hlast', Hinvalid.
  rewrite (proj2 (invalid_errors_one b') Hvalid). split; reflexivity.
Qed.

Lemma errorLog_read_kept self block now e :
  e ∈ errorLog_read (validateChain self) ->
  e ∈ errorLog_read (validateChain (pushed self block now)).
Proof.
  rewrite errorLog_read_spec, errorLog_read_pushed, !elem_of_app. tauto.
Qed.

Lemma _addBlock_refused self block now e :
  e ∈ errorLog_read (validateChain self) ->
  _addBlock self block now
  = (Rejected (VArr (errorLog_read (validateChain (pushed self block now)))), self).
Proof.
  intros He. apply (errorLog_read_kept self block now) in He.
  rewrite _addBlock_unfold.
  destruct (errorLog_read (validateChain (pushed self block now)));
    [apply elem_of_nil in He; destruct He|reflexivity].
Qed.

(** X8. A chain that fails validation takes no block.  When
    [validateChain] reports an error on the chain as it stands,
    [_addBlock] is rejected whatever the block and the clock, with a log
    that holds that error, and the chain is what it was. *)
Theorem addBlock_refused_on_invalid_chain self block now e :
  e ∈ errorLog_read (validateChain self) ->
  exists errorLog : list Value,
    _addBlock self block now = (Rejected (VArr errorLog), self) /\ e ∈ errorLog.
Proof.
  intros He. eexists. split; [apply (_addBlock_refused self block now e He)|].
  apply errorLog_read_kept, He.
Qed.

(** X9. On such a chain [submitStar] leaves its promise unsettled when
    the message is in time and the signature verified: [_addBlock] is
    rejected with a log that holds the error, the rejection is thrown
    inside the async executor, and the chain is what it was. *)
Theorem submitStar_unsettled_on_invalid_chain self (address message signature : string)
    (star : json) (now now' : N) e :
  e ∈ errorLog_read (validateChain self) ->
  verify message address signature = Returns true ->
  less (elapsed message now) 0 = false ->
  at_least (elapsed message now) 300 = false ->
  exists errorLog : list Value,
    submitStar verify self address message signature star now now'
    = (Uncaught (VArr errorLog), self)
    /\ e ∈ errorLog.
Proof.
  intros He Hverify Hless Hleast. unfold submitStar. fold (elapsed message now).
  rewrite Hverify, Hless, Hleast. cbn [negb].
  rewrite (_addBlock_refused self _ now' e He).
  eexists. split; [reflexivity|]. apply errorLog_read_kept, He.
Qed.

(** X10. The block that a successful [_addBlock] resolves with is the one
    block added at the end of the chain.  Its height is the former height
    of the chain plus one, which is the new height of the chain; its body
    is the body it came with; its time is the seconds of the clock as
    text; and its previous hash is the stored hash of the block that was
    last or, on an empty chain, the value it came with. *)
Theorem addBlock_completes_block self block now (stored : Block) (self' : Blockchain) :
  _addBlock self block now = (Resolved stored, self') ->
  chain self' = chain self ++ [stored]
  /\ height self' = height self + 1
  /\ BlockClass.height stored = height self + 1
  /\ BlockClass.body stored = BlockClass.body block
  /\ BlockClass.time stored = BlockClass.TimeText (seconds_text now)
  /\ BlockClass.previousBlockHash stored
     = match last (chain self) with
       | Some p => BlockClass.hash p
       | None => BlockClass.previousBlockHash block
       end.
Proof.
  intros Hadd.
  destruct (_addBlock_result self block now) as [[log Hfail]|[Hok _]].
  - rewrite Hfail in Hadd. discriminate.
  - rewrite Hok in Hadd. injection Hadd as <- <-.
    destruct (completed_fields self block now) as (Hheight & Hbody & Hprevious).
    split; [reflexivity|]. split; [reflexivity|]. split; [exact Hheight|].
    split; [exact Hbody|]. split; [|exact Hprevious].
    unfold completed. destruct (last (chain self)); reflexivity.
Qed.

Lemma submitStar_resolved self (address message signature : string) (star : json)
    (now now' : N) (stored : Block) (self' : Blockchain) :
  submitStar verify self address message signature star now now' = (Resolved stored, self') ->
  stored = completed self (BlockClass.new (star_data address star)) now'
  /\ self' = pushed self (BlockClass.new (star_data address star)) now'
  /\ verify message address signature = Returns true
  /\ less (elapsed message now) 0 = false
  /\ at_least (elapsed message now) 300 = false.
Proof.
  unfold submitStar. fold (elapsed message now).
  destruct (verify message address signature) as [verified|error]; [|discriminate].
  destruct (less _ 0); [discriminate|]. destruct (at_least _ 300); [discriminate|].
  destruct verified; [|discriminate]. cbn [negb].
  destruct (_addBlock_result self (BlockClass.new (star_data address star)) now')
    as [[log ->]|[-> _]]; [discriminate|].
  intros [= <- <-]. repeat split; reflexivity.
Qed.

(** X11. [submitStar] changes the chain only when it resolves.  Then it
    has added exactly the block it resolves with, at the end of the chain
    and one above the former height, with the encoding of
    [{owner: address, star: star}] as body; [bitcoinMessage.verify] had
    returned [true], and the elapsed time was neither below 0 nor at least
    300.  In every other case the chain is what it was. *)
Theorem submitStar_appends_one self (address message signature : string)
    (star : json) (now now' : N) :
  let result := submitStar verify self address message signature star now now' in
  match fst result with
  | Resolved block =>
      chain (snd result) = chain self ++ [block]
      /\ height (snd result) = height self + 1
      /\ BlockClass.height block = height self + 1
      /\ BlockClass.body block = BlockClass.encode (star_data address star)
      /\ verify message address signature = Returns true
      /\ less (elapsed message now) 0 = false
      /\ at_least (elapsed message now) 300 = false
  | _ => snd result = self
  end.
Proof.
  cbv zeta.
  destruct (submitStar verify self address message signature star now now')
    as [[stored|error|error] self'] eqn:Hsubmit; cbn [fst snd].
  - destruct (submitStar_resolved _ _ _ _ _ _ _ _ _ Hsubmit) as (-> & -> & Hverify & Hless & Hleast).
    destruct (completed_fields self (BlockClass.new (star_data address star)) now')
      as (Hheight & Hbody & _).
    repeat split; assumption.
  - revert Hsubmit. unfold submitStar.
    destruct (verify message address signature) as [verified|thrown]; [|intros [= _ <-]; reflexivity].
    destruct (less _ 0); [intros [= _ <-]; reflexivity|].
    destruct (at_least _ 300); [intros [= _ <-]; reflexivity|].
    destruct (negb verified); [intros [= _ <-]; reflexivity|].
    destruct (_addBlock_result self (BlockClass.new (star_data address star)) now')
      as [[log ->]|[-> _]]; [intros [= _ <-]; reflexivity|discriminate].
  - revert Hsubmit. unfold submitStar.
    destruct (verify message address signature) as [verified|thrown]; [|intros [= _ <-]; reflexivity].
    destruct (less _ 0); [intros [= _ <-]; reflexivity|].
    destruct (at_least _ 300); [intros [= _ <-]; reflexivity|].
    destruct (negb verified); [intros [= _ <-]; reflexivity|].
    destruct (_addBlock_result self (BlockClass.new (star_data address star)) now')
      as [[log ->]|[-> _]]; [intros [= _ <-]; reflexivity|discriminate].
Qed.

End LogFacts.

Lemma reachable_chain_validates_witness :
  reachable sample_verify chain2
  /\ errorLog_resolved (validateChain chain2) = []
  /\ errorLog_read (validateChain chain2) = [].
Proof.
  split; [exact chain2_reachable|].
  destruct (reachable_chain_validates sample_verify chain2 chain2_reachable)
    as (Hresolved & Hread & _).
  split; [exact Hresolved|exact Hread].
Defined.

Lemma chain1_reachable : reachable sample_verify chain1.
Proof. apply (reachable_step _ chain0); [apply reachable_new|apply step_submitStar]. Qed.

Lemma validateChain_detects_changed_hash_witness :
  chain chain1 !! 1%nat = Some first_star_block
  /\ fst (BlockClass.validate first_star_block) = Resolved true
  /\ Some "00" <> BlockClass.hash first_star_block
  /\ VStr ("Block " ++ BlockClass.stringify (BlockClass.set_hash (Some "00") first_star_block)
           ++ " is not valid")%string
       ∈ errorLog_read
           (validateChain
              {| chain := <[1%nat := BlockClass.set_hash (Some "00") first_star_block]>
                            (chain chain1);
                 height := height chain1 |}).
Proof.
  assert (Hblock : chain chain1 !! 1%nat = Some first_star_block) by (vm_compute; reflexivity).
  assert (Hvalid : fst (BlockClass.validate first_star_block) = Resolved true)
    by (vm_compute; reflexivity).
  assert (Hneq : Some "00" <> BlockClass.hash first_star_block)
    by (vm_compute; discriminate).
  split; [exact Hblock|]. split; [exact Hvalid|]. split; [exact Hneq|].
  exact (validateChain_detects_changed_hash chain1 1%nat first_star_block (Some "00")
           Hblock Hvalid Hneq).
Defined.

Lemma validateChain_reports_broken_link_witness :
  chain chain2 !! 1%nat = Some first_star_block
  /\ chain chain2 !! 2%nat = Some star_block
  /\ BlockClass.hash (rehash (tamper "7b7d" first_star_block))
     <> BlockClass.hash first_star_block
  /\ link_message (rehash (tamper "7b7d" first_star_block)) star_block
       ∈ errorLog_resolved
           (validateChain
              {| chain := <[1%nat := rehash (tamper "7b7d" first_star_block)]> (chain chain2);
                 height := height chain2 |}).
Proof.
  assert (Hblock : chain chain2 !! 1%nat = Some first_star_block) by (vm_compute; reflexivity).
  assert (Hnext : chain chain2 !! 2%nat = Some star_block) by (vm_compute; reflexivity).
  assert (Hlink : BlockClass.previousBlockHash star_block = BlockClass.hash first_star_block)
    by (vm_compute; reflexivity).
  assert (Hneq : BlockClass.hash (rehash (tamper "7b7d" first_star_block))
                 <> BlockClass.hash first_star_block) by (vm_compute; discriminate).
  split; [exact Hblock|]. split; [exact Hnext|]. split; [exact Hneq|].
  exact (validateChain_reports_broken_link chain2 1%nat first_star_block star_block
           (rehash (tamper "7b7d" first_star_block)) Hblock Hnext Hlink Hneq).
Defined.

Lemma validateChain_misses_last_block_witness :
  chain chain2 = chain chain1 ++ [star_block]
  /\ BlockClass.body forged_block <> BlockClass.body star_block
  /\ errorLog_read
       (validateChain {| chain := chain chain1 ++ [forged_block]; height := height chain2 |})
     = [].
Proof.
  assert (Hchain : chain chain2 = chain chain1 ++ [star_block]) by (vm_compute; reflexivity).
  assert (Hbody : BlockClass.body forged_block <> BlockClass.body star_block)
    by (vm_compute; discriminate).
  assert (Hprevious : BlockClass.previousBlockHash forged_block
                      = BlockClass.previousBlockHash star_block) by reflexivity.
  assert (Hvalid : fst (BlockClass.validate forged_block) = Resolved true)
    by (vm_compute; reflexivity).
  split; [exact Hchain|]. split; [exact Hbody|].
  exact (proj2 (validateChain_misses_last_block sample_verify chain2 (chain chain1) star_block
                  forged_block chain2_reachable Hchain Hprevious Hvalid)).
Defined.

Lemma addBlock_refused_on_invalid_chain_witness :
  VStr ("Block " ++ BlockClass.stringify tampered_block ++ " is not valid")%string
    ∈ errorLog_read (validateChain tampered_chain)
  /\ exists errorLog : list Value,
       _addBlock tampered_chain (BlockClass.new (star_data sample_address plain_star))
         1700000040000
       = (Rejected (VArr errorLog), tampered_chain)
       /\ VStr ("Block " ++ BlockClass.stringify tampered_block ++ " is not valid")%string
            ∈ errorLog.
Proof.
  assert (Hlogged : VStr ("Block " ++ BlockClass.stringify tampered_block ++ " is not valid")%string
                      ∈ errorLog_read (validateChain tampered_chain))
    by (vm_compute; apply list_elem_of_here).
  split; [exact Hlogged|].
  exact (addBlock_refused_on_invalid_chain tampered_chain
           (BlockClass.new (star_data sample_address plain_star)) 1700000040000 _ Hlogged).
Defined.

Lemma submitStar_unsettled_on_invalid_chain_witness :
  VStr ("Block " ++ BlockClass.stringify tampered_block ++ " is not valid")%string
    ∈ errorLog_read (validateChain tampered_chain)
  /\ sample_verify sample_message sample_address sample_signature = Returns true
  /\ exists errorLog : list Value,
       submitStar sample_verify tampered_chain sample_address sample_message
         sample_signature plain_star 1700000040000 1700000040001
       = (Uncaught (VArr errorLog), tampered_chain)
       /\ VStr ("Block " ++ BlockClass.stringify tampered_block ++ " is not valid")%string
            ∈ errorLog.
Proof.
  assert (Hlogged : VStr ("Block " ++ BlockClass.stringify tampered_block ++ " is not valid")%string
                      ∈ errorLog_read (validateChain tampered_chain))
    by (vm_compute; apply list_elem_of_here).
  assert (Hverify : sample_verify sample_message sample_address sample_signature = Returns true)
    by (vm_compute; reflexivity).
  assert (Hless : less (elapsed sample_message 1700000040000) 0 = false)
    by (vm_compute; reflexivity).
  assert (Hleast : at_least (elapsed sample_message 1700000040000) 300 = false)
    by (vm_compute; reflexivity).
  split; [exact Hlogged|]. split; [exact Hverify|].
  exact (submitStar_unsettled_on_invalid_chain sample_verify tampered_chain sample_address
           sample_message sample_signature plain_star 1700000040000 1700000040001 _
           Hlogged Hverify Hless Hleast).
Defined.

Lemma addBlock_completes_block_witness :
  _addBlock chain0 (BlockClass.new (star_data sample_address plain_star)) 1700000020001
  = (Resolved first_star_block, chain1)
  /\ chain chain1 = chain chain0 ++ [first_star_block]
  /\ BlockClass.height first_star_block = height chain0 + 1
  /\ BlockClass.time first_star_block = BlockClass.TimeText (seconds_text 1700000020001).
Proof.
  assert (H : _addBlock chain0 (BlockClass.new (star_data sample_address plain_star))
                1700000020001
              = (Resolved first_star_block, chain1)) by (vm_compute; reflexivity).
  destruct (addBlock_completes_block _ _ _ _ _ H) as (Hchain & _ & Hheight & _ & Htime & _).
  split; [exact H|]. split; [exact Hchain|]. split; [exact Hheight|exact Htime].
Defined.

(* ------------------------------------------------------------------------- *)
(** ** Messages and the clock *)

Section MessageFacts.

Variable verify : Verifier.
Implicit Types (self : Blockchain) (address message signature : string) (star : json).

(** X12. For an address without a colon and a clock that reads at least
    1000 ms, [requestMessageOwnershipVerification] resolves with
    address:seconds:starRegistry, where seconds is the decimal numeral of
    the clock reading divided by 1000; and the time stamp that [submitStar]
    takes from this message, [parseInt(message.split(':')[1])], is that
    number of seconds. *)
Theorem requested_message_time address (now : N) message :
  no_colon address = true ->
  (1000 <= now <= max_time)%N ->
  requestMessageOwnershipVerification address now = Resolved message ->
  message = (address ++ ":" ++ text (digits (now / 1000)) ++ ":starRegistry")%string
  /\ message_time message = Some (Z.of_N (now / 1000)).
Proof.
  intros Haddress [Hnow _] [= <-]. rewrite (seconds_text_digits now Hnow).
  split; [reflexivity|]. apply (message_time_fields address _ "starRegistry" Haddress).
Qed.

Lemma submitStar_passes self address message signature star (now now' : N) :
  verify message address signature = Returns true ->
  less (elapsed message now) 0 = false ->
  at_least (elapsed message now) 300 = false ->
  reachable verify self ->
  submitStar verify self address message signature star now now'
  = (Resolved (completed self (BlockClass.new (star_data address star)) now'),
     pushed self (BlockClass.new (star_data address star)) now').
Proof.
  intros Hverify Hless Hleast Hreach. unfold submitStar. fold (elapsed message now).
  rewrite Hverify, Hless, Hleast. cbn [negb].
  rewrite (_addBlock_new self (BlockClass.new (star_data address star)) now'
             (reachable_validates verify self Hreach) eq_refl).
  reflexivity.
Qed.

(** X13. From request to submission.  A message requested when the clock
    read [requested] and submitted when it reads [now], for an address
    without a colon, with a signature that verifies, on a chain that the
    operations reach: the star is added when the two readings, each cut to
    whole seconds, are less than 300 apart, and the call is rejected with
    ExpiredMessageError when they are 300 or more apart. *)
Theorem requested_message_window self address message signature star
    (requested now now' : N) :
  no_colon address = true ->
  (1000 <= requested <= now)%N ->
  (now <= max_time)%N ->
  requestMessageOwnershipVerification address requested = Resolved message ->
  verify message address signature = Returns true ->
  reachable verify self ->
  let seconds := Z.of_N (now / 1000) - Z.of_N (requested / 1000) in
  let result := submitStar verify self address message signature star now now' in
  (seconds < 300 ->
   result = (Resolved (completed self (BlockClass.new (star_data address star)) now'),
             pushed self (BlockClass.new (star_data address star)) now'))
  /\ (300 <= seconds -> result = (Rejected ExpiredMessageError, self)).
Proof.
  intros Haddress [Hrequested Hnow] Hmax Hrequest Hverify Hreach. cbv zeta.
  assert (Helapsed : elapsed message now
                     = Some (Z.of_N (now / 1000) - Z.of_N (requested / 1000))).
  { assert (Hmessage : message
                       = (address ++ ":" ++ text (digits (requested / 1000))
                            ++ ":" ++ "starRegistry")%string).
    { injection Hrequest as <-. rewrite (seconds_text_digits requested Hrequested).
      reflexivity. }
    unfold elapsed. rewrite currentTime_seconds by lia.
    rewrite Hmessage, (message_time_fields address _ "starRegistry" Haddress). reflexivity. }
  assert (Hpast : (requested / 1000 <= now / 1000)%N) by (apply N.Div0.div_le_mono; exact Hnow).
  split; intros Hseconds.
  - apply submitStar_passes; [exact Hverify| | |exact Hreach]; rewrite Helapsed; cbn [less at_least].
    + apply Z.ltb_ge. lia.
    + apply Z.leb_gt. exact Hseconds.
  - unfold submitStar. fold (elapsed message now).
    rewrite Hverify, Helapsed. cbn [less at_least].
    replace (_ <? 0) with false by (symmetry; apply Z.ltb_ge; lia).
    replace (300 <=? _) with true by (symmetry; apply Z.leb_le; exact Hseconds).
    reflexivity.
Qed.

(** X14. The time window in seconds.  For a message whose time stamp is
    [t] and a clock that reads [now] milliseconds, when
    [bitcoinMessage.verify] returns: the call is rejected with
    FutureMessageError when [now] cut to whole seconds is below [t]; with
    ExpiredMessageError when it is [t + 300] or more; in between, with
    SignatureVerificationError when the signature did not verify, and
    otherwise, on a chain that the operations reach, the star is added. *)
Theorem submitStar_time_window self address message signature star (now now' : N)
    (t : Z) (verified : bool) :
  (1000 <= now <= max_time)%N ->
  message_time message = Some t ->
  verify message address signature = Returns verified ->
  let seconds := Z.of_N (now / 1000) in
  let result := submitStar verify self address message signature star now now' in
  (seconds < t -> result = (Rejected FutureMessageError, self))
  /\ (t + 300 <= seconds -> result = (Rejected ExpiredMessageError, self))
  /\ (t <= seconds < t + 300 -> verified = false ->
      result = (Rejected SignatureVerificationError, self))
  /\ (t <= seconds < t + 300 -> verified = true -> reachable verify self ->
      result = (Resolved (completed self (BlockClass.new (star_data address star)) now'),
                pushed self (BlockClass.new (star_data address star)) now')).
Proof.
  intros [Hnow _] Htime Hverify. cbv zeta.
  assert (Helapsed : elapsed message now = Some (Z.of_N (now / 1000) - t)).
  { unfold elapsed. rewrite (currentTime_seconds now Hnow), Htime. reflexivity. }
  split; [|split; [|split]].
  - intros Hfuture. unfold submitStar. fold (elapsed message now).
    rewrite Hverify, Helapsed. cbn [less].
    replace (_ <? 0) with true by (symmetry; apply Z.ltb_lt; lia). reflexivity.
  - intros Hexpired. unfold submitStar. fold (elapsed message now).
    rewrite Hverify, Helapsed. cbn [less at_least].
    replace (_ <? 0) with false by (symmetry; apply Z.ltb_ge; lia).
    replace (300 <=? _) with true by (symmetry; apply Z.leb_le; lia). reflexivity.
  - intros Hwindow ->. unfold submitStar. fold (elapsed message now).
    rewrite Hverify, Helapsed. cbn [less at_least].
    replace (_ <? 0) with false by (symmetry; apply Z.ltb_ge; lia).
    replace (300 <=? _) with false by (symmetry; apply Z.leb_gt; lia). reflexivity.
  - intros Hwindow -> Hreach.
    apply submitStar_passes; [exact Hverify| | |exact Hreach]; rewrite Helapsed; cbn [less at_least].
    + apply Z.ltb_ge. lia.
    + apply Z.leb_gt. lia.
Qed.

(** X15. A message without a number in its second field passes both
    time checks: [parseInt] gives NaN, the elapsed time is NaN, and both
    comparisons are false.  With a signature that verifies, on a chain
    that the operations reach, the star is added whatever the clock
    reads. *)
Theorem submitStar_without_time_stamp self address message signature star (now now' : N) :
  message_time message = None ->
  verify message address signature = Returns true ->
  reachable verify self ->
  submitStar verify self address message signature star now now'
  = (Resolved (completed self (BlockClass.new (star_data address star)) now'),
     pushed self (BlockClass.new (star_data address star)) now').
Proof.
  intros Htime Hverify Hreach.
  assert (Helapsed : elapsed message now = None).
  { unfold elapsed. rewrite Htime. destruct (parseInt _ _); reflexivity. }
  apply submitStar_passes; [exact Hverify| | |exact Hreach]; rewrite Helapsed; reflexivity.
Qed.

(** X16. [submitStar] keeps no record of the messages it has accepted.
    The same address, message, signature and star, submitted again while
    the message is in time, are accepted again: the chain gains two
    blocks, with the same body, at successive heights. *)
Theorem submitStar_accepts_replay self address message signature star
    (now1 now1' now2 now2' : N) :
  verify message address signature = Returns true ->
  reachable verify self ->
  less (elapsed message now1) 0 = false -> at_least (elapsed message now1) 300 = false ->
  less (elapsed message now2) 0 = false -> at_least (elapsed message now2) 300 = false ->
  let first := submitStar verify self address message signature star now1 now1' in
  let second := submitStar verify (snd first) address message signature star now2 now2' in
  exists b1 b2 : Block,
    fst first = Resolved b1
    /\ fst second = Resolved b2
    /\ chain (snd second) = chain self ++ [b1; b2]
    /\ BlockClass.body b1 = BlockClass.body b2
    /\ BlockClass.height b2 = BlockClass.height b1 + 1.
Proof.
  intros Hverify Hreach Hless1 Hleast1 Hless2 Hleast2. cbv zeta.
  set (block := BlockClass.new (star_data address star)).
  assert (Hreach1 : reachable verify
                      (snd (submitStar verify self address message signature star now1 now1')))
    by (eapply reachable_step; [exact Hreach|apply step_submitStar]).
  rewrite (submitStar_passes _ _ _ _ _ now2 now2' Hverify Hless2 Hleast2 Hreach1).
  rewrite (submitStar_passes self _ _ _ _ now1 now1' Hverify Hless1 Hleast1 Hreach).
  fold block. cbn [fst snd].
  exists (completed self block now1'), (completed (pushed self block now1') block now2').
  destruct (completed_fields self block now1') as (Hh1 & Hb1 & _).
  destruct (completed_fields (pushed self block now1') block now2') as (Hh2 & Hb2 & _).
  split; [reflexivity|]. split; [reflexivity|].
  split; [unfold pushed at 1 2; cbn [chain]; rewrite <- app_assoc; reflexivity|].
  split; [congruence|]. rewrite Hh2, Hh1. reflexivity.
Qed.

End MessageFacts.

Lemma requested_message_time_witness :
  no_colon sample_address = true
  /\ requestMessageOwnershipVerification sample_address 1700000010999 = Resolved sample_message
  /\ message_time sample_message = Some 1700000010.
Proof.
  assert (Haddress : no_colon sample_address = true) by (vm_compute; reflexivity).
  assert (Hnow : (1000 <= 1700000010999 <= max_time)%N) by (unfold max_time; lia).
  assert (Hrequest : requestMessageOwnershipVerification sample_address 1700000010999
                     = Resolved sample_message) by (vm_compute; reflexivity).
  split; [exact Haddress|]. split; [exact Hrequest|].
  exact (proj2 (requested_message_time sample_address 1700000010999 sample_message
                  Haddress Hnow Hrequest)).
Defined.

Lemma requested_message_window_witness :
  requestMessageOwnershipVerification sample_address 1700000010999 = Resolved sample_message
  /\ sample_verify sample_message sample_address sample_signature = Returns true
  /\ submitStar sample_verify chain0 sample_address sample_message sample_signature
       plain_star 1700000309999 1700000310000
     = (Resolved (completed chain0 (BlockClass.new (star_data sample_address plain_star))
                    1700000310000),
        pushed chain0 (BlockClass.new (star_data sample_address plain_star)) 1700000310000).
Proof.
  assert (Haddress : no_colon sample_address = true) by (vm_compute; reflexivity).
  assert (Hpast : (1000 <= 1700000010999 <= 1700000309999)%N) by lia.
  assert (Hmax : (1700000309999 <= max_time)%N) by (unfold max_time; lia).
  assert (Hrequest : requestMessageOwnershipVerification sample_address 1700000010999
                     = Resolved sample_message) by (vm_compute; reflexivity).
  assert (Hverify : sample_verify sample_message sample_address sample_signature = Returns true)
    by (vm_compute; reflexivity).
  assert (Hseconds : Z.of_N (1700000309999 / 1000) - Z.of_N (1700000010999 / 1000) < 300)
    by (vm_compute; reflexivity).
  split; [exact Hrequest|]. split; [exact Hverify|].
  exact (proj1 (requested_message_window sample_verify chain0 sample_address sample_message
                  sample_signature plain_star 1700000010999 1700000309999 1700000310000
                  Haddress Hpast Hmax Hrequest Hverify chain0_reachable) Hseconds).
Defined.

Lemma submitStar_time_window_witness :
  message_time expired_message = Some 1600000000
  /\ sample_verify expired_message sample_address sample_signature = Returns false
  /\ submitStar sample_verify chain0 sample_address expired_message sample_signature
       plain_star 1600000300000 1600000300001
     = (Rejected ExpiredMessageError, chain0)
  /\ submitStar sample_verify chain0 sample_address expired_message sample_signature
       plain_star 1600000299999 1600000300000
     = (Rejected SignatureVerificationError, chain0).
Proof.
  assert (Htime : message_time expired_message = Some 1600000000) by (vm_compute; reflexivity).
  assert (Hverify : sample_verify expired_message sample_address sample_signature
                    = Returns false) by (vm_compute; reflexivity).
  assert (Hnow : (1000 <= 1600000300000 <= max_time)%N) by (unfold max_time; lia).
  assert (Hnow' : (1000 <= 1600000299999 <= max_time)%N) by (unfold max_time; lia).
  assert (Hexpired : 1600000000 + 300 <= Z.of_N (1600000300000 / 1000))
    by (vm_compute; discriminate).
  assert (Hwindow : 1600000000 <= Z.of_N (1600000299999 / 1000) < 1600000000 + 300)
    by (split; vm_compute; [discriminate|reflexivity]).
  split; [exact Htime|]. split; [exact Hverify|]. split.
  - exact (proj1 (proj2 (submitStar_time_window sample_verify chain0 sample_address
                           expired_message sample_signature plain_star 1600000300000
                           1600000300001 1600000000 false Hnow Htime Hverify)) Hexpired).
  - exact (proj1 (proj2 (proj2 (submitStar_time_window sample_verify chain0 sample_address
                                  expired_message sample_signature plain_star 1600000299999
                                  1600000300000 1600000000 false Hnow' Htime Hverify)))
             Hwindow eq_refl).
Defined.

Lemma submitStar_without_time_stamp_witness :
  message_time untimed_message = None
  /\ submitStar trusting_verify chain0 sample_address untimed_message sample_signature
       plain_star 1700000020000 1700000020001
     = (Resolved (completed chain0 (BlockClass.new (star_data sample_address plain_star))
                    1700000020001),
        pushed chain0 (BlockClass.new (star_data sample_address plain_star)) 1700000020001).
Proof.
  assert (Htime : message_time untimed_message = None) by (vm_compute; reflexivity).
  split; [exact Htime|].
  exact (submitStar_without_time_stamp trusting_verify chain0 sample_address untimed_message
           sample_signature plain_star 1700000020000 1700000020001
           Htime eq_refl (reachable_new trusting_verify 1700000000000)).
Defined.

Lemma submitStar_accepts_replay_witness :
  exists b1 b2 : Block,
    fst (submitStar sample_verify chain0 sample_address sample_message sample_signature
           plain_star 1700000020000 1700000020001)
    = Resolved b1
    /\ fst (submitStar sample_verify
              (snd (submitStar sample_verify chain0 sample_address sample_message
                      sample_signature plain_star 1700000020000 1700000020001))
              sample_address sample_message sample_signature plain_star
              1700000030000 1700000030001)
       = Resolved b2
    /\ BlockClass.body b1 = BlockClass.body b2.
Proof.
  assert (Hverify : sample_verify sample_message sample_address sample_signature = Returns true)
    by (vm_compute; reflexivity).
  assert (Hless1 : less (elapsed sample_message 1700000020000) 0 = false)
    by (vm_compute; reflexivity).
  assert (Hleast1 : at_least (elapsed sample_message 1700000020000) 300 = false)
    by (vm_compute; reflexivity).
  assert (Hless2 : less (elapsed sample_message 1700000030000) 0 = false)
    by (vm_compute; reflexivity).
  assert (Hleast2 : at_least (elapsed sample_message 1700000030000) 300 = false)
    by (vm_compute; reflexivity).
  destruct (submitStar_accepts_replay sample_verify chain0 sample_address sample_message
              sample_signature plain_star 1700000020000 1700000020001 1700000030000
              1700000030001 Hverify chain0_reachable Hless1 Hleast1 Hless2 Hleast2)
    as (b1 & b2 & H1 & H2 & _ & Hbody & _).
  exists b1, b2. split; [exact H1|]. split; [exact H2|exact Hbody].
Defined.

(* ------------------------------------------------------------------------- *)
(** ** Payloads, the genesis block and the blocks of a chain *)

Section PayloadFacts.

Variable verify : Verifier.
Implicit Types (self : Blockchain).

(** X17. Encoding and decoding.  On a block whose body is the encoding of
    a plain payload, [getBData] resolves with that payload, unless the
    height of the block is 0: then it is rejected with the genesis error,
    as it is on the block that [new Block(data)] has just made. *)
Theorem getBData_decodes_plain_payload (data : json) :
  plain_json data = true ->
  (forall b : Block,
     BlockClass.body b = BlockClass.encode data ->
     BlockClass.getBData b
     = Some (if BlockClass.height b =? 0 then Rejected GenesisBlockError else Resolved data))
  /\ BlockClass.getBData (BlockClass.new data) = Some (Rejected GenesisBlockError).
Proof.
  intros Hplain.
  assert (Hdecodes : forall b : Block,
             BlockClass.body b = BlockClass.encode data ->
             BlockClass.getBData b
             = Some (if BlockClass.height b =? 0
                     then Rejected GenesisBlockError else Resolved data)).
  { intros b Hbody. unfold BlockClass.getBData.
    rewrite Hbody, (hex2ascii_encode data Hplain), (parse_stringify data Hplain).
    destruct (BlockClass.height b =? 0); reflexivity. }
  split; [exact Hdecodes|]. exact (Hdecodes (BlockClass.new data) eq_refl).
Qed.

(** X18. [new Blockchain()] holds exactly one block, and its height is
    0.  The block has height 0, no previous hash, the seconds of the clock
    as time and the encoding of [{data: 'Genesis Block'}] as body; it
    passes [validate()], and [getBData] refuses its payload with the
    genesis error. *)
Theorem new_Blockchain_genesis (now : N) :
  exists g : Block,
    chain (new_Blockchain now) = [g]
    /\ height (new_Blockchain now) = 0
    /\ BlockClass.height g = 0
    /\ BlockClass.previousBlockHash g = None
    /\ BlockClass.time g = BlockClass.TimeText (seconds_text now)
    /\ BlockClass.body g = BlockClass.encode genesis_data
    /\ fst (BlockClass.validate g) = Resolved true
    /\ BlockClass.getBData g = Some (Rejected GenesisBlockError).
Proof.
  rewrite new_Blockchain_spec. exists (completed empty (BlockClass.new genesis_data) now).
  destruct (completed_fields empty (BlockClass.new genesis_data) now) as (Hheight & Hbody & Hp).
  split; [reflexivity|]. split; [reflexivity|]. split; [exact Hheight|].
  split; [exact Hp|]. split; [reflexivity|]. split; [exact Hbody|].
  split; [apply completed_validates; reflexivity|].
  unfold BlockClass.getBData. rewrite Hbody, Hheight.
  change (BlockClass.body (BlockClass.new genesis_data)) with (BlockClass.encode genesis_data).
  pose proof genesis_body_decodes as Hdecodes.
  destruct (hex2ascii (BlockClass.encode genesis_data)) as [decoded|]; [|discriminate].
  cbn [option_map] in Hdecodes. injection Hdecodes as ->. reflexivity.
Qed.

(** X19. The genesis block is made once: on a chain that the operations
    reach, [initializeChain] resolves and changes nothing. *)
Theorem initializeChain_only_once self (now : N) :
  reachable verify self -> initializeChain self now = (Resolved tt, self).
Proof.
  intros Hreach. pose proof (reachable_height verify self Hreach) as Hheight.
  unfold initializeChain.
  replace (height self =? -1) with false by (symmetry; apply Z.eqb_neq; lia).
  reflexivity.
Qed.

(** X20. On a chain that the operations reach, [getStarsByWalletAddress]
    resolves, for every address, with the blocks at the heights from 1 on,
    in chain order, as many as the height of the chain: block objects, of
    every owner. *)
Theorem getStarsByWalletAddress_every_block self (address : string) :
  reachable verify self ->
  exists stars : list Block,
    getStarsByWalletAddress self address = Resolved stars
    /\ Z.of_nat (length stars) = height self
    /\ forall i : nat, stars !! i = chain self !! S i.
Proof.
  intros Hreach.
  destruct (reachable_invariant verify self Hreach) as (_ & _ & (g & Hg & _) & Hheight).
  exists (tail (chain self)). split; [apply getStarsByWalletAddress_all|].
  destruct (chain self) as [|g' rest]; [discriminate|].
  cbn [tail length] in *. split; [lia|reflexivity].
Qed.

(** X21. A block that [submitStar] resolves with is found again, on a
    chain that the operations reach: [getBlockByHeight] at its height
    resolves with this block, [getChainHeight] resolves with its height,
    and [getBlockByHash] at its stored hash resolves with a block that
    stores this hash. *)
Theorem submitted_block_found self (address message signature : string) (star : json)
    (now now' : N) (block : Block) (self' : Blockchain) :
  reachable verify self ->
  submitStar verify self address message signature star now now' = (Resolved block, self') ->
  getBlockByHeight self' (BlockClass.height block) = Resolved (Some block)
  /\ getChainHeight self' = Resolved (BlockClass.height block)
  /\ exists (h : string) (found : Block),
       BlockClass.hash block = Some h
       /\ getBlockByHash self' h = Resolved (Some found)
       /\ BlockClass.hash found = Some h.
Proof.
  intros Hreach Hsubmit.
  assert (Hreach' : reachable verify self').
  { replace self' with (snd (submitStar verify self address message signature star now now'))
      by (rewrite Hsubmit; reflexivity).
    eapply reachable_step; [exact Hreach|apply step_submitStar]. }
  destruct (submitStar_resolved verify _ _ _ _ _ _ _ _ _ Hsubmit) as (Hstored & Hself' & _).
  destruct (completed_fields self (BlockClass.new (star_data address star)) now')
    as (Hheight & _). rewrite <- Hstored in Hheight.
  pose proof (reachable_invariant verify self Hreach) as (_ & _ & _ & Hlen).
  assert (Hlast : chain self' !! length (chain self) = Some block).
  { rewrite Hself', Hstored. unfold pushed. cbn [chain]. apply list_lookup_middle. reflexivity. }
  split; [|split].
  - rewrite (getBlockByHeight_invariant self' _ (reachable_invariant verify self' Hreach')).
    replace (0 <=? BlockClass.height block) with true by (symmetry; apply Z.leb_le; lia).
    replace (Z.to_nat (BlockClass.height block)) with (length (chain self)) by lia.
    rewrite Hlast. reflexivity.
  - unfold getChainHeight. rewrite Hself'. unfold pushed. cbn [height]. rewrite Hheight.
    reflexivity.
  - pose proof (valid_when_log_empty self' (reachable_validates verify self' Hreach')
                  _ _ Hlast) as Hvalid.
    pose proof (proj1 (validate_true_hash block) Hvalid) as Hhash.
    eexists. rewrite getBlockByHash_find.
    destruct (find _ (chain self')) as [found|] eqn:Hfind.
    + exists found. split; [exact Hhash|]. split; [reflexivity|].
      apply find_some in Hfind as [_ Hfound]. apply same_text_true in Hfound. exact Hfound.
    + assert (Hin : In block (chain self')).
      { apply list_elem_of_In. eapply list_elem_of_lookup_2. exact Hlast. }
      pose proof (find_none _ _ Hfind block Hin) as Hnone. cbv beta in Hnone.
      rewrite (proj2 (same_text_true _ _) Hhash) in Hnone. discriminate.
Qed.

End PayloadFacts.

Lemma getBData_decodes_plain_payload_witness :
  plain_json (star_data sample_address plain_star) = true
  /\ BlockClass.body first_star_block = BlockClass.encode (star_data sample_address plain_star)
  /\ BlockClass.getBData first_star_block = Some (Resolved (star_data sample_address plain_star)).
Proof.
  assert (Hplain : plain_json (star_data sample_address plain_star) = true)
    by (vm_compute; reflexivity).
  assert (Hbody : BlockClass.body first_star_block
                  = BlockClass.encode (star_data sample_address plain_star))
    by (vm_compute; reflexivity).
  assert (Hheight : (BlockClass.height first_star_block =? 0) = false)
    by (vm_compute; reflexivity).
  split; [exact Hplain|]. split; [exact Hbody|].
  pose proof (proj1 (getBData_decodes_plain_payload (star_data sample_address plain_star)
                       Hplain) first_star_block Hbody) as Hdata.
  rewrite Hheight in Hdata. exact Hdata.
Defined.

Lemma initializeChain_only_once_witness :
  reachable sample_verify chain2
  /\ initializeChain chain2 1700000040000 = (Resolved tt, chain2).
Proof.
  split; [exact chain2_reachable|].
  exact (initializeChain_only_once sample_verify chain2 1700000040000 chain2_reachable).
Defined.

Lemma getStarsByWalletAddress_every_block_witness :
  reachable sample_verify chain2
  /\ exists stars : list Block,
       getStarsByWalletAddress chain2 other_address = Resolved stars
       /\ Z.of_nat (length stars) = height chain2
       /\ forall i : nat, stars !! i = chain chain2 !! S i.
Proof.
  split; [exact chain2_reachable|].
  exact (getStarsByWalletAddress_every_block sample_verify chain2 other_address
           chain2_reachable).
Defined.

Lemma submitted_block_found_witness :
  submitStar sample_verify chain0 sample_address sample_message sample_signature
    plain_star 1700000020000 1700000020001
  = (Resolved first_star_block, chain1)
  /\ getBlockByHeight chain1 (BlockClass.height first_star_block)
     = Resolved (Some first_star_block)
  /\ getChainHeight chain1 = Resolved (BlockClass.height first_star_block).
Proof.
  assert (H : submitStar sample_verify chain0 sample_address sample_message sample_signature
                plain_star 1700000020000 1700000020001
              = (Resolved first_star_block, chain1)) by (vm_compute; reflexivity).
  destruct (submitted_block_found sample_verify chain0 sample_address sample_message
              sample_signature plain_star 1700000020000 1700000020001 first_star_block chain1
              chain0_reachable H) as (Hheight & Hchain & _).
  split; [exact H|]. split; [exact Hheight|exact Hchain].
Defined.
